(** * kittenbark/config: the file-backed configuration cache

    A shallow embedding of [config.go] (package [config]): the
    staleness-checked store ([Cache], [verboseGet], [Get], [Update]) and
    the typed accessor ([GetContext[T]]).

    - Go pointers are indices into explicit heaps ([objs] for
      [*configValue], [decoded] for the [*T] results), so that aliasing
      of an entry between the map and a caller is visible.
    - The [sync.RWMutex] is an explicit piece of state; [defer] is a
      combinator that runs the deferred call when the body returns or
      panics.
    - The operating system (files, clock) is part of the [World]; every
      file-system call and every [json.Unmarshal] call is recorded in a
      [trace].
    - A call run from start to end is the sequential behaviour.  For the
      properties of concurrent callers the code is cut where no lock is
      held: what runs between taking and releasing the lock is one step
      of a goroutine, steps of different goroutines interleave, and the
      test of [cfg.Value] that [GetContext[T]] makes without the lock is
      a step of its own.
    - After the properties of the specification (C1 to C10) come those
      of the rest of the code (X1 onwards): [UpdateContext[T]], [Stats],
      sequential programs of calls and what they keep, the HTTP handlers
      of package [config_web], and [Client.init] of its client. *)

From Stdlib Require Import ZArith String Ascii List Bool Lia.
From stdpp Require Import base option relations list gmap strings.

Local Open Scope Z_scope.

(** ** Time *)

(** [time.Time] as nanoseconds counted from Go's zero [Time];
    [time.Duration] is an [int64] count of nanoseconds. *)
Abbreviation Time := Z (only parsing).
Abbreviation Duration := Z (only parsing).

Definition zeroTime : Time := 0.
Definition minDuration : Duration := - 2 ^ 63.
Definition maxDuration : Duration := 2 ^ 63 - 1.
Definition Minute : Duration := 60 * 1000000000.

(** [t.Sub(u)]: the difference, saturated to the range of [Duration]. *)
Definition time_Sub (t u : Time) : Duration :=
  let d := t - u in
  if d <? minDuration then minDuration
  else if maxDuration <? d then maxDuration
  else d.

(** [t.After(u)] *)
Definition time_After (t u : Time) : bool := u <? t.

(** ** Strings and paths *)

Abbreviation bytes := (list Byte.byte) (only parsing).

Definition code (c : ascii) : N := N_of_ascii c.

(** The ASCII fast path table of [strings.TrimSpace]. *)
Definition asciiSpace (c : ascii) : bool :=
  match code c with
  | 9 | 10 | 11 | 12 | 13 | 32 => true
  | _ => false
  end%N.

(** Two-byte UTF-8 encodings of runes with [unicode.IsSpace]:
    U+0085 and U+00A0. *)
Definition space2 (c1 c2 : ascii) : bool :=
  match code c1, code c2 with
  | 194, 133 | 194, 160 => true
  | _, _ => false
  end%N.

(** Three-byte encodings: U+1680, U+2000..U+200A, U+2028, U+2029,
    U+202F, U+205F, U+3000. *)
Definition space3 (c1 c2 c3 : ascii) : bool :=
  match code c1, code c2, code c3 with
  | 225, 154, 128 => true
  | 226, 128, n => ((128 <=? n) && (n <=? 138)) || (n =? 168) || (n =? 169) || (n =? 175)
  | 226, 129, 159 => true
  | 227, 128, 128 => true
  | _, _, _ => false
  end%N.

(** [strings.TrimLeftFunc(s, unicode.IsSpace)] on the bytes of [s]. *)
Fixpoint trimLeft (s : list ascii) : list ascii :=
  match s with
  | [] => []
  | c1 :: s1 =>
    if asciiSpace c1 then trimLeft s1
    else match s1 with
         | [] => s
         | c2 :: s2 =>
           if space2 c1 c2 then trimLeft s2
           else match s2 with
                | [] => s
                | c3 :: s3 => if space3 c1 c2 c3 then trimLeft s3 else s
                end
         end
  end.

(** [strings.TrimRightFunc(s, unicode.IsSpace)], on the reversed bytes. *)
Fixpoint trimLeftRev (s : list ascii) : list ascii :=
  match s with
  | [] => []
  | c1 :: s1 =>
    if asciiSpace c1 then trimLeftRev s1
    else match s1 with
         | [] => s
         | c2 :: s2 =>
           if space2 c2 c1 then trimLeftRev s2
           else match s2 with
                | [] => s
                | c3 :: s3 => if space3 c3 c2 c1 then trimLeftRev s3 else s
                end
         end
  end.

Definition trimRight (s : list ascii) : list ascii := rev (trimLeftRev (rev s)).

(** [strings.TrimSpace] *)
Definition TrimSpace (s : string) : string :=
  string_of_list_ascii (trimRight (trimLeft (list_ascii_of_string s))).

(** [fmt.Sprintf("%s.json", name)] *)
Definition Sprintf_json (name : string) : string := name +:+ ".json".

(** *** path/filepath, for Unix

    [filepath.Clean] works on the elements of a path, the runs of bytes
    between separators: empty elements and [.] are dropped, [..] takes
    away the element before it, or stays when there is none to take
    away and the path is not rooted. *)

Definition Separator : ascii := "/".

(** The elements of a path: what lies between its separators. *)
Fixpoint elements (s : list ascii) : list (list ascii) :=
  match s with
  | [] => [[]]
  | c :: s' =>
    if Ascii.eqb c Separator then [] :: elements s'
    else match elements s' with
         | e :: rest => (c :: e) :: rest
         | [] => [[c]]
         end
  end.

Definition dot : list ascii := ["."%char].
Definition dotdot : list ascii := ["."%char; "."%char].

(** One element read by [Clean]; [out] holds the elements written so
    far, the last one first. *)
Definition clean_element (rooted : bool) (out : list (list ascii)) (e : list ascii)
  : list (list ascii) :=
  if decide (e = []) then out
  else if decide (e = dot) then out
  else if decide (e = dotdot) then
    match out with
    | top :: out' => if decide (top = dotdot) then e :: out else out'
    | [] => if rooted then [] else [e]
    end
  else e :: out.

(** [strings.Join(elems, "/")] *)
Fixpoint join_elements (l : list (list ascii)) : list ascii :=
  match l with
  | [] => []
  | [e] => e
  | e :: rest => e ++ Separator :: join_elements rest
  end.

(** [filepath.Clean(path)] *)
Definition filepath_Clean (path : string) : string :=
  match list_ascii_of_string path with
  | [] => "."
  | (c :: _) as p =>
    let rooted := Ascii.eqb c Separator in
    let out := fold_left (clean_element rooted) (elements p) [] in
    let body := join_elements (rev out) in
    if rooted then string_of_list_ascii (Separator :: body)
    else match body with
         | [] => "."
         | _ => string_of_list_ascii body
         end
  end.

(** [filepath.Join(dir, elem)]: the elements that are not empty, joined
    by the separator and cleaned. *)
Definition filepath_Join (dir elem : string) : string :=
  match dir, elem with
  | EmptyString, EmptyString => EmptyString
  | EmptyString, _ => filepath_Clean elem
  | _, _ => filepath_Clean (dir +:+ "/" +:+ elem)
  end.

(** A name without a separator. *)
Definition has_separator (name : string) : bool :=
  existsb (Ascii.eqb Separator) (list_ascii_of_string name).

(** A rune with [unicode.IsSpace], as its UTF-8 bytes. *)
Definition isSpaceRune (r : list ascii) : bool :=
  match r with
  | [c] => asciiSpace c
  | [c1; c2] => space2 c1 c2
  | [c1; c2; c3] => space3 c1 c2 c3
  | _ => false
  end.

(** A name that starts or ends with white space. *)
Definition padded (name : string) : Prop :=
  exists ws rest,
    isSpaceRune ws = true
    /\ (list_ascii_of_string name = ws ++ rest
        \/ list_ascii_of_string name = rest ++ ws).


(** ** Errors *)

Inductive errno := ENOENT | EACCES.

Inductive error :=
| PathError (op path : string) (e : errno)   (* *fs.PathError *)
| Canceled                                    (* context.Canceled *)
| DeadlineExceeded                            (* context.DeadlineExceeded *)
| UnmarshalError (msg : string).              (* an error of encoding/json *)

(** ** context.Context *)

Inductive Context :=
| Background
| WithCancel (canceled : bool)
| WithDeadline (d : Time).

(** ** The mutex *)

(** [sync.RWMutex]: the number of goroutines holding it for reading and
    whether one holds it for writing. *)
Record RWMutex := mkRWMutex { readers : nat; writer : bool }.

Definition unlockedMutex : RWMutex := mkRWMutex 0 false.

(** ** Files *)

Record File := mkFile {
  ModTime : Time;
  Data : bytes;
  Readable : bool;
  Writable : bool
}.

(** The calls that leave the process, and the decode work. *)
Inductive Event :=
| EvStat (path : string)
| EvReadFile (path : string)
| EvWriteFile (path : string) (data : bytes)
| EvUnmarshal (raw : bytes).

Definition is_unmarshal (e : Event) : bool :=
  match e with EvUnmarshal _ => true | _ => false end.

(** What [verboseGet] returns: [(cfg, updated, err)]. *)
Abbreviation resolution := (option nat * bool * option error)%type (only parsing).

(** An Entry a caller got back: who, for which name, and the Entry's
    [LastUpdate]. *)
Abbreviation observation := (nat * string * Z)%type (only parsing).

(** Go pointers: addresses in a heap. *)
Abbreviation ptr := nat (only parsing).

Section Config.

(** The Go types a caller can instantiate [T] with, the values
    [json.Unmarshal] produces, and [json.Unmarshal] itself (into a fresh
    variable of type [T]) are left abstract. *)
Context {GoType : Type} `{!EqDecision GoType} {JVal : Type}.
Variable json_Unmarshal : GoType -> bytes -> JVal + string.

(** ** The data model *)

(** A [*configValue] and a [*T] are addresses in the heaps below
    ([ptr]); the nil pointer is [None]. *)

(** [Value any] holds nil or a [*T] together with its dynamic type. *)
Record configValue := mkConfigValue {
  LastUpdate : Time;
  Value : option (GoType * ptr);
  Raw : bytes
}.

Record Cache := mkCache {
  directory : string;
  lock : RWMutex;
  configs : gmap string ptr;
  syncTimeout : Duration
}.

Record World := mkWorld {
  cache : Cache;
  objs : list configValue;      (* the allocated configValue objects *)
  decoded : list JVal;          (* the allocated decode results *)
  files : gmap string File;
  clock : Time;
  trace : list Event
}.

Definition set_lock (l : RWMutex) (w : World) : World :=
  mkWorld (mkCache (directory (cache w)) l (configs (cache w)) (syncTimeout (cache w)))
          (objs w) (decoded w) (files w) (clock w) (trace w).
Definition set_configs (m : gmap string ptr) (w : World) : World :=
  mkWorld (mkCache (directory (cache w)) (lock (cache w)) m (syncTimeout (cache w)))
          (objs w) (decoded w) (files w) (clock w) (trace w).
Definition set_syncTimeout (d : Duration) (w : World) : World :=
  mkWorld (mkCache (directory (cache w)) (lock (cache w)) (configs (cache w)) d)
          (objs w) (decoded w) (files w) (clock w) (trace w).
Definition set_objs (o : list configValue) (w : World) : World :=
  mkWorld (cache w) o (decoded w) (files w) (clock w) (trace w).
Definition set_decoded (d : list JVal) (w : World) : World :=
  mkWorld (cache w) (objs w) d (files w) (clock w) (trace w).
Definition set_files (f : gmap string File) (w : World) : World :=
  mkWorld (cache w) (objs w) (decoded w) f (clock w) (trace w).
Definition set_clock (t : Time) (w : World) : World :=
  mkWorld (cache w) (objs w) (decoded w) (files w) t (trace w).
Definition log (e : Event) (w : World) : World :=
  mkWorld (cache w) (objs w) (decoded w) (files w) (clock w) (trace w ++ [e]).

(** ** Outcomes of a call *)

Inductive panic :=
| NilDereference                               (* invalid memory address or nil pointer dereference *)
| InterfaceConversion (have want : GoType).    (* interface conversion: interface {} is *have, not *want *)

Inductive fatal :=
| RUnlockOfUnlocked      (* fatal error: sync: RUnlock of unlocked RWMutex *)
| UnlockOfUnlocked.      (* fatal error: sync: Unlock of unlocked RWMutex *)

(** A call returns, panics (the stack unwinds, deferred calls run), dies
    with a fatal error of the runtime (nothing runs any more), or blocks
    for ever on a lock nobody will release. *)
Inductive outcome (A : Type) :=
| Done (a : A) (w : World)
| Panicked (p : panic) (w : World)
| Fatal (f : fatal)
| Blocked.
Arguments Done {A} a w.
Arguments Panicked {A} p w.
Arguments Fatal {A} f.
Arguments Blocked {A}.

Definition M (A : Type) : Type := World -> outcome A.

Definition ret {A} (a : A) : M A := fun w => Done a w.

Definition bind {A B} (m : M A) (k : A -> M B) : M B :=
  fun w =>
    match m w with
    | Done a w' => k a w'
    | Panicked p w' => Panicked p w'
    | Fatal f => Fatal f
    | Blocked => Blocked
    end.

Notation "x <- m ;; k" := (bind m (fun x => k))
  (at level 100, m at next level, right associativity).
Notation "m ;;; k" := (bind m (fun _ => k))
  (at level 100, right associativity).

Definition throw {A} (p : panic) : M A := fun w => Panicked p w.

(** [defer d; body]: [d] runs when [body] returns and also when it
    panics; not after a fatal error. *)
Definition defer {A} (d : M unit) (body : M A) : M A :=
  fun w =>
    match body w with
    | Done a w' => (d ;;; ret a) w'
    | Panicked p w' => (d ;;; throw p) w'
    | Fatal f => Fatal f
    | Blocked => Blocked
    end.

Definition gets {A} (f : World -> A) : M A := fun w => Done (f w) w.
Definition modify (f : World -> World) : M unit := fun w => Done tt (f w).

(** ** sync.RWMutex

    The state has no queue of blocked goroutines: a call that has to
    wait is [Blocked].  [RUnlock] with no reader, and [Unlock] with no
    writer, are the fatal errors of the runtime; this is also what
    [RUnlock] does to a mutex held for writing only. *)

Definition RLock : M unit :=
  fun w =>
    let l := lock (cache w) in
    if writer l then Blocked
    else Done tt (set_lock (mkRWMutex (S (readers l)) false) w).

Definition RUnlock : M unit :=
  fun w =>
    let l := lock (cache w) in
    match readers l with
    | O => Fatal RUnlockOfUnlocked
    | S n => Done tt (set_lock (mkRWMutex n (writer l)) w)
    end.

Definition Lock : M unit :=
  fun w =>
    let l := lock (cache w) in
    if writer l then Blocked
    else match readers l with
         | O => Done tt (set_lock (mkRWMutex 0 true) w)
         | S _ => Blocked
         end.

Definition Unlock : M unit :=
  fun w =>
    let l := lock (cache w) in
    if writer l then Done tt (set_lock (mkRWMutex (readers l) false) w)
    else Fatal UnlockOfUnlocked.

(** ** time, context, os *)

Definition time_Now : M Time := gets clock.

(** [time.Since(t)] *)
Definition time_Since (t : Time) : M Duration :=
  now <- time_Now ;; ret (time_Sub now t).

(** [ctx.Err()] *)
Definition ctx_Err (ctx : Context) : M (option error) :=
  match ctx with
  | Background => ret None
  | WithCancel c => ret (if c then Some Canceled else None)
  | WithDeadline d =>
    now <- time_Now ;;
    ret (if d <=? now then Some DeadlineExceeded else None)
  end.

(** [os.Stat(path)]; of the [FileInfo] only [ModTime()] is used. *)
Definition os_Stat (path : string) : M (Time + error) :=
  modify (log (EvStat path)) ;;;
  fs <- gets files ;;
  match fs !! path with
  | Some f => ret (inl (ModTime f))
  | None => ret (inr (PathError "stat" path ENOENT))
  end.

(** [os.ReadFile(path)] *)
Definition os_ReadFile (path : string) : M (bytes + error) :=
  modify (log (EvReadFile path)) ;;;
  fs <- gets files ;;
  match fs !! path with
  | Some f =>
    if Readable f then ret (inl (Data f))
    else ret (inr (PathError "open" path EACCES))
  | None => ret (inr (PathError "open" path ENOENT))
  end.

(** [os.WriteFile(path, data, 0666)]: creates the file or truncates it,
    then writes [data]. *)
Definition os_WriteFile (path : string) (data : bytes) : M (option error) :=
  modify (log (EvWriteFile path data)) ;;;
  fs <- gets files ;;
  now <- time_Now ;;
  match fs !! path with
  | Some f =>
    if Writable f then
      modify (set_files (<[path := mkFile now data (Readable f) true]> fs)) ;;;
      ret None
    else ret (Some (PathError "open" path EACCES))
  | None =>
    modify (set_files (<[path := mkFile now data true true]> fs)) ;;;
    ret None
  end.

(** ** Memory *)

(** [*p] for a [*configValue]. *)
Definition load (p : option ptr) : M configValue :=
  match p with
  | None => throw NilDereference
  | Some a =>
    o <- gets objs ;;
    match o !! a with
    | Some cv => ret cv
    | None => throw NilDereference
    end
  end.

(** [&configValue{...}] *)
Definition new_configValue (cv : configValue) : M ptr :=
  o <- gets objs ;;
  modify (set_objs (o ++ [cv])) ;;;
  ret (length o).

(** [cfg.Value = v] *)
Definition store_Value (p : option ptr) (v : option (GoType * ptr)) : M unit :=
  cv <- load p ;;
  match p with
  | None => throw NilDereference
  | Some a =>
    o <- gets objs ;;
    modify (set_objs (<[a := mkConfigValue (LastUpdate cv) v (Raw cv)]> o))
  end.

(** [var result T] after a successful unmarshal; [&result]. *)
Definition new_result (v : JVal) : M ptr :=
  d <- gets decoded ;;
  modify (set_decoded (d ++ [v])) ;;;
  ret (length d).

(** [json.Unmarshal(raw, &result)] for [result] of type [T]. *)
Definition Unmarshal (T : GoType) (raw : bytes) : M (JVal + string) :=
  modify (log (EvUnmarshal raw)) ;;;
  ret (json_Unmarshal T raw).

(** [v.( *T )], the one-result form: it panics on a mismatch. *)
Definition assert_type (T : GoType) (v : option (GoType * ptr)) : M ptr :=
  match v with
  | Some (U, p) => if decide (U = T) then ret p else throw (InterfaceConversion U T)
  | None => throw NilDereference
  end.

(** ** config.go *)

(** [NewCache(directory)] *)
Definition NewCache (dir : string) : Cache :=
  mkCache dir unlockedMutex ∅ Minute.

(** [cache.SyncTimeout(duration)] *)
Definition SyncTimeout (duration : Duration) : M unit :=
  modify (set_syncTimeout duration).

(** What [verboseGet] returns, [(cfg, updated, err)], has type
    [resolution]. *)

(** [verboseGet], from [cache.lock.RLock()] to the point where the read
    lock has been given up: either the call has returned, or it is about
    to take the write lock, holding the path and the [ModTime()] of the
    [stat]. *)
Definition verboseGet_shared (ctx : Context) (name : string)
  : M (resolution + string * Time) :=
  RLock ;;;
  cerr <- ctx_Err ctx ;;
  match cerr with
  | Some e => defer RUnlock (ret (inl (None, false, Some e)))
  | None =>
    m <- gets (fun w => configs (cache w)) ;;
    let config := m !! name in
    (* ok && time.Since(config.LastUpdate) < cache.syncTimeout *)
    fresh <- match config with
             | Some _ =>
               cv <- load config ;;
               since <- time_Since (LastUpdate cv) ;;
               timeout <- gets (fun w => syncTimeout (cache w)) ;;
               ret (since <? timeout)
             | None => ret false
             end ;;
    if fresh then defer RUnlock (ret (inl (config, false, None)))
    else
      lastUpdate <- match config with
                    | Some _ => cv <- load config ;; ret (LastUpdate cv)
                    | None => ret zeroTime
                    end ;;
      dir <- gets (fun w => directory (cache w)) ;;
      let path := filepath_Join dir (Sprintf_json (TrimSpace name)) in
      st <- os_Stat path ;;
      match st with
      | inr err => defer RUnlock (ret (inl (None, false, Some err)))
      | inl modTime =>
        if negb (time_After modTime lastUpdate)
        then defer RUnlock (ret (inl (config, false, None)))
        else RUnlock ;;; ret (inr (path, modTime))
      end
  end.

(** [verboseGet], from [cache.lock.Lock()] to the end. *)
Definition verboseGet_exclusive (ctx : Context) (name path : string) (modTime : Time)
  : M resolution :=
  Lock ;;;
  defer Unlock (
    cerr <- ctx_Err ctx ;;
    match cerr with
    | Some e => ret (None, false, Some e)
    | None =>
      m <- gets (fun w => configs (cache w)) ;;
      let config := m !! name in
      (* ok && !stat.ModTime().After(config.LastUpdate) *)
      current <- match config with
                 | Some _ =>
                   cv <- load config ;;
                   ret (negb (time_After modTime (LastUpdate cv)))
                 | None => ret false
                 end ;;
      if current then ret (config, false, None)
      else
        loaded <- time_Now ;;
        r <- os_ReadFile path ;;
        match r with
        | inr err => defer RUnlock (ret (None, false, Some err))
        | inl data =>
          p <- new_configValue (mkConfigValue loaded None data) ;;
          modify (set_configs (<[name := p]> m)) ;;;
          ret (Some p, true, None)
        end
    end).

(** [cache.verboseGet(ctx, name)] *)
Definition verboseGet (ctx : Context) (name : string) : M resolution :=
  r <- verboseGet_shared ctx name ;;
  match r with
  | inl res => ret res
  | inr (path, modTime) => verboseGet_exclusive ctx name path modTime
  end.

(** [cache.GetContext(ctx, name)] *)
Definition Cache_GetContext (ctx : Context) (name : string)
  : M (option bytes * option error) :=
  res <- verboseGet ctx name ;;
  let '(cfg, _, err) := res in
  match err with
  | Some e => ret (None, Some e)
  | None =>
    match cfg with
    | None => ret (None, None)
    | Some _ => cv <- load cfg ;; ret (Some (Raw cv), None)
    end
  end.

(** [cache.Get(name)] *)
Definition Cache_Get (name : string) : M (option bytes * option error) :=
  Cache_GetContext Background name.

(** [cache.UpdateContext(ctx, name, data)] *)
Definition Cache_UpdateContext (ctx : Context) (name : string) (data : bytes)
  : M (option error) :=
  Lock ;;;
  defer Unlock (
    cerr <- ctx_Err ctx ;;
    match cerr with
    | Some e => ret (Some e)
    | None =>
      dir <- gets (fun w => directory (cache w)) ;;
      let path := filepath_Join dir (Sprintf_json name) in
      os_WriteFile path data
    end).

(** [cache.Update(name, data)] *)
Definition Cache_Update (name : string) (data : bytes) : M (option error) :=
  Cache_UpdateContext Background name data.

(** [GetContext[T]], the first test of [cfg.Value], made without the
    lock: [Some p] when the call returns [p] there. *)
Definition GetContext_cached (T : GoType) (cfg : option ptr) (updated : bool)
  : M (option ptr) :=
  cv <- load cfg ;;
  if bool_decide (Value cv ≠ None) && negb updated
  then p <- assert_type T (Value cv) ;; ret (Some p)
  else ret None.

(** [GetContext[T]], from [cache.lock.Lock()] to the end. *)
Definition GetContext_decode (T : GoType) (ctx : Context) (cfg : option ptr) (updated : bool)
  : M (option ptr * option error) :=
  Lock ;;;
  defer Unlock (
    cerr <- ctx_Err ctx ;;
    match cerr with
    | Some e => ret (None, Some e)
    | None =>
      cv <- load cfg ;;
      if bool_decide (Value cv ≠ None) && negb updated
      then p <- assert_type T (Value cv) ;; ret (Some p, None)
      else
        r <- Unmarshal T (Raw cv) ;;
        match r with
        | inr msg => ret (None, Some (UnmarshalError msg))
        | inl v =>
          p <- new_result v ;;
          store_Value cfg (Some (T, p)) ;;;
          ret (Some p, None)
        end
    end).

(** [GetContext[T](ctx, cache, name)] *)
Definition GetContext (T : GoType) (ctx : Context) (name : string)
  : M (option ptr * option error) :=
  res <- verboseGet ctx name ;;
  let '(cfg, updated, err) := res in
  match err with
  | Some e => ret (None, Some e)
  | None =>
    r <- GetContext_cached T cfg updated ;;
    match r with
    | Some p => ret (Some p, None)
    | None => GetContext_decode T ctx cfg updated
    end
  end.

(** [Get[T](cache, name)] *)
Definition Get (T : GoType) (name : string) : M (option ptr * option error) :=
  GetContext T Background name.


(** ** Notions used to state the properties *)

Implicit Types (w : World) (cv : configValue).

(** The backing file [verboseGet] looks at, and the one
    [UpdateContext] writes. *)
Definition getPath w (name : string) : string :=
  filepath_Join (directory (cache w)) (Sprintf_json (TrimSpace name)).
Definition updatePath w (name : string) : string :=
  filepath_Join (directory (cache w)) (Sprintf_json name).

(** The Entry the mapping holds for [name]. *)
Definition entry w (name : string) : option configValue :=
  match configs (cache w) !! name with
  | Some p => objs w !! p
  | None => None
  end.

(** Every pointer in the mapping points to an allocated object. *)
Definition no_dangling w : Prop :=
  forall name p, configs (cache w) !! name = Some p -> is_Some (objs w !! p).

(** The freshness test of [verboseGet] and the [LastUpdate] it
    remembers for the comparison with the file. *)
Definition fresh w (name : string) : bool :=
  match entry w name with
  | Some cv => time_Sub (clock w) (LastUpdate cv) <? syncTimeout (cache w)
  | None => false
  end.
Definition lastUpdate w (name : string) : Time :=
  match entry w name with
  | Some cv => LastUpdate cv
  | None => zeroTime
  end.

(** Two worlds with the same memory: cache, Entries, decoded values. *)
Definition same_memory w w' : Prop :=
  cache w' = cache w /\ objs w' = objs w /\ decoded w' = decoded w.

(** The world after a reload of [name] from a file holding [data]. *)
Definition reloaded w (name path : string) (data : bytes) : World :=
  set_configs (<[name := length (objs w)]> (configs (cache w)))
    (set_objs (objs w ++ [mkConfigValue (clock w) None data])
       (log (EvReadFile path) w)).

(** The world after [GetContext[T]] has decoded Entry [e] into a new
    value [v]. *)
Definition decoded_into w (T : GoType) (e : ptr) cv (v : JVal) : World :=
  set_objs (<[e := mkConfigValue (LastUpdate cv) (Some (T, length (decoded w))) (Raw cv)]> (objs w))
    (set_decoded (decoded w ++ [v]) (log (EvUnmarshal (Raw cv)) w)).

(** ** Goroutines calling [verboseGet] concurrently

    The sections of [verboseGet] that run under the lock are the steps
    of a goroutine; between its two sections a goroutine holds no lock
    and anything may happen.  A step that does not return (fatal error,
    panic) is not a step: the program has stopped. *)

Inductive goroutine :=
| Idle
| Upgrading (ctx : Context) (name path : string) (modTime : Time).

Record System := mkSystem {
  world : World;
  goroutines : list goroutine;
  observed : list observation
}.

Definition observe w (i : nat) (name : string) (res : resolution) : list observation :=
  match res with
  | (Some p, _, None) =>
    match objs w !! p with
    | Some cv => [(i, name, LastUpdate cv)]
    | None => []
    end
  | _ => []
  end.

(** What the rest of the program and of the machine may do between two
    steps: time passes, files change, decoded slots are filled.  The
    mapping and the [LastUpdate] and [Raw] of the Entries are written by
    [verboseGet] only. *)
Definition env_step w w' : Prop :=
  cache w' = cache w
  /\ clock w <= clock w'
  /\ length (objs w') = length (objs w)
  /\ forall e cv, objs w !! e = Some cv ->
       exists cv', objs w' !! e = Some cv' /\ LastUpdate cv' = LastUpdate cv
                   /\ Raw cv' = Raw cv.

Definition after_shared (s : System) (i : nat) (ctx : Context) (name : string)
           (r : resolution + string * Time) w' : System :=
  match r with
  | inl res => mkSystem w' (goroutines s) (observed s ++ observe w' i name res)
  | inr (path, modTime) =>
    mkSystem w' (<[i := Upgrading ctx name path modTime]> (goroutines s)) (observed s)
  end.

Inductive step : System -> System -> Prop :=
| step_env s w' :
    env_step (world s) w' ->
    step s (mkSystem w' (goroutines s) (observed s))
| step_shared s i ctx name r w' :
    goroutines s !! i = Some Idle ->
    verboseGet_shared ctx name (world s) = Done r w' ->
    step s (after_shared s i ctx name r w')
| step_exclusive s i ctx name path modTime res w' :
    goroutines s !! i = Some (Upgrading ctx name path modTime) ->
    verboseGet_exclusive ctx name path modTime (world s) = Done res w' ->
    step s (mkSystem w' (<[i := Idle]> (goroutines s))
                     (observed s ++ observe w' i name res)).

(** Every Entry in the mapping was loaded at a time that has passed. *)
Definition timely w : Prop :=
  forall name p, configs (cache w) !! name = Some p ->
    exists cv, objs w !! p = Some cv /\ LastUpdate cv <= clock w.

(** Later observations of a name never carry an earlier [LastUpdate]. *)
Definition nondecreasing (l : list observation) : Prop :=
  forall j k i1 i2 name t1 t2,
    (j <= k)%nat ->
    l !! j = Some (i1, name, t1) -> l !! k = Some (i2, name, t2) ->
    t1 <= t2.

(** Every observation is bounded by the Entry the mapping holds now. *)
Definition bounded (s : System) : Prop :=
  forall k i name t, observed s !! k = Some (i, name, t) ->
    exists p cv, configs (cache (world s)) !! name = Some p
                 /\ objs (world s) !! p = Some cv /\ t <= LastUpdate cv.

Definition invariant (s : System) : Prop :=
  timely (world s) /\ bounded s /\ nondecreasing (observed s).

(** ** Typed accessors of one name, concurrently

    [N] calls of [GetContext[T](ctx, cache, name)] with the background
    context, each cut into its steps: the two sections of [verboseGet],
    the test of [cfg.Value] without the lock, and the section under the
    lock that decodes. *)

Inductive accessor :=
| Calling                                         (* called, [verboseGet] not entered *)
| Waiting (path : string) (modTime : Time)        (* in [verboseGet], between the locks *)
| Resolved (cfg : option ptr) (updated : bool)    (* [verboseGet] has returned, no error *)
| Locking (cfg : option ptr) (updated : bool)     (* about to take the lock *)
| Finished (r : option ptr * option error).       (* has returned *)

Record Pool := mkPool {
  pool_world : World;
  accessors : list accessor
}.

(** Where a call stands when [verboseGet] has returned. *)
Definition resolved (res : resolution) : accessor :=
  let '(cfg, updated, err) := res in
  match err with
  | Some e => Finished (None, Some e)
  | None => Resolved cfg updated
  end.

(** Under the calls time passes and files may change, as long as the
    Entry of the name stays inside its freshness window; memory and the
    trace are theirs. *)
Definition quiet_step (name : string) w w' : Prop :=
  same_memory w w' /\ trace w' = trace w /\ clock w <= clock w'
  /\ fresh w' name = true.

Inductive pool_step (T : GoType) (name : string) : Pool -> Pool -> Prop :=
| pool_env P w' :
    quiet_step name (pool_world P) w' ->
    pool_step T name P (mkPool w' (accessors P))
| pool_shared P i r w' :
    accessors P !! i = Some Calling ->
    verboseGet_shared Background name (pool_world P) = Done r w' ->
    pool_step T name P
      (mkPool w' (<[i := match r with
                         | inl res => resolved res
                         | inr (path, modTime) => Waiting path modTime
                         end]> (accessors P)))
| pool_exclusive P i path modTime res w' :
    accessors P !! i = Some (Waiting path modTime) ->
    verboseGet_exclusive Background name path modTime (pool_world P) = Done res w' ->
    pool_step T name P (mkPool w' (<[i := resolved res]> (accessors P)))
| pool_cached P i cfg updated r w' :
    accessors P !! i = Some (Resolved cfg updated) ->
    GetContext_cached T cfg updated (pool_world P) = Done r w' ->
    pool_step T name P
      (mkPool w' (<[i := match r with
                         | Some p => Finished (Some p, None)
                         | None => Locking cfg updated
                         end]> (accessors P)))
| pool_decode P i cfg updated r w' :
    accessors P !! i = Some (Locking cfg updated) ->
    GetContext_decode T Background cfg updated (pool_world P) = Done r w' ->
    pool_step T name P (mkPool w' (<[i := Finished r]> (accessors P))).

(** The [json.Unmarshal] calls in a trace. *)
Definition unmarshals (t : list Event) : nat :=
  length (List.filter is_unmarshal t).

(** A call that works on Entry [e] and has not reloaded it. *)
Definition on_entry (e : ptr) (a : accessor) : Prop :=
  a = Calling \/ a = Resolved (Some e) false \/ a = Locking (Some e) false
  \/ exists r, a = Finished r.

(** What holds of a pool that started in world [w0] with the fresh Entry
    [e], of bytes [raw], under the name: the mapping still holds [e] and
    it is fresh, every call works on it, the only calls recorded are
    unmarshals; while the decoded slot is empty nothing was unmarshaled
    and nobody has returned; once it is filled, with a [*T], one
    unmarshal at most has happened and whoever has returned got the
    pointer in the slot. *)
Definition pool_invariant (T : GoType) (name : string) (e : ptr) (raw : bytes)
           w0 (P : Pool) : Prop :=
  lock (cache (pool_world P)) = lock (cache w0)
  /\ configs (cache (pool_world P)) !! name = Some e
  /\ fresh (pool_world P) name = true
  /\ (forall i a, accessors P !! i = Some a -> on_entry e a)
  /\ exists cv t,
      objs (pool_world P) !! e = Some cv /\ Raw cv = raw
      /\ trace (pool_world P) = trace w0 ++ t
      /\ match Value cv with
         | None =>
           t = []
           /\ forall i r, accessors P !! i = Some (Finished r) -> False
         | Some (U, p) =>
           U = T /\ (t = [] \/ t = [EvUnmarshal raw])
           /\ forall i r, accessors P !! i = Some (Finished r) -> r = (Some p, None)
         end.

End Config.

Arguments Done {GoType JVal A} a w.
Arguments Panicked {GoType JVal A} p w.
Arguments Fatal {GoType JVal A} f.
Arguments Blocked {GoType JVal A}.

Arguments ret {GoType JVal A} a _ /.
Arguments bind {GoType JVal A B} m k _ /.
Arguments throw {GoType JVal A} p _ /.
Arguments defer {GoType JVal A} d body _ /.
Arguments gets {GoType JVal A} f _ /.
Arguments modify {GoType JVal} f _ /.
Arguments RLock {GoType JVal} _ /.
Arguments RUnlock {GoType JVal} _ /.
Arguments Lock {GoType JVal} _ /.
Arguments Unlock {GoType JVal} _ /.
Arguments time_Now {GoType JVal} _ /.
Arguments time_Since {GoType JVal} t _ /.
Arguments ctx_Err {GoType JVal} !ctx _ /.
Arguments os_Stat {GoType JVal} path _ /.
Arguments os_ReadFile {GoType JVal} path _ /.
Arguments os_WriteFile {GoType JVal} path data _ /.
Arguments load {GoType JVal} !p _ /.
Arguments new_configValue {GoType JVal} cv _ /.
Arguments store_Value {GoType JVal} !p v _ /.
Arguments new_result {GoType JVal} v _ /.
Arguments Unmarshal {GoType JVal} json_Unmarshal T raw _ /.
Arguments assert_type {GoType _ JVal} T !v _ /.
Arguments set_lock {GoType JVal} l !w /.
Arguments set_configs {GoType JVal} m !w /.
Arguments set_syncTimeout {GoType JVal} d !w /.
Arguments set_objs {GoType JVal} o !w /.
Arguments set_decoded {GoType JVal} d !w /.
Arguments set_files {GoType JVal} f !w /.
Arguments set_clock {GoType JVal} t !w /.
Arguments log {GoType JVal} e !w /.
Arguments observe {GoType JVal} w i name res : simpl never.
Arguments TrimSpace : simpl never.
Arguments filepath_Clean : simpl never.
Arguments filepath_Join : simpl never.
Arguments Sprintf_json : simpl never.
Arguments time_Sub : simpl never.
Arguments time_After : simpl never.

(** ** Test data, after config_test.go *)

(** The two types the tests decode into. *)
Inductive TestType := ConfigNameT | MapStringString.

#[global] Instance TestType_eq_dec : EqDecision TestType.
Proof. solve_decision. Defined.

(** A stand-in for [json.Unmarshal]: a document is accepted when it
    starts with an opening brace, and decodes to itself. *)
Definition test_Unmarshal (T : TestType) (raw : bytes) : bytes + string :=
  match raw with
  | Byte.x7b :: _ => inl raw
  | _ => inr "invalid character looking for beginning of value"%string
  end.

Definition document : bytes := list_byte_of_string "{integer:1}".
Definition config_name_json : File := mkFile 5 document true true.
Definition testdata : gmap string File :=
  {[ "testdata/config_name.json"%string := config_name_json ]}.

(** [NewCache("testdata")] at time 100, nothing loaded. *)
Definition cold : @World TestType bytes :=
  mkWorld (NewCache "testdata") [] [] testdata 100 [].

(** The same cache with [config_name] loaded at time 100, seen at time
    [now], the decoded slot holding [slot]. *)
Definition warm (now : Time) (slot : option (TestType * ptr)) (fs : gmap string File)
  : @World TestType bytes :=
  mkWorld (mkCache "testdata" unlockedMutex {[ "config_name"%string := 0%nat ]} Minute)
          [mkConfigValue 100 slot document]
          (match slot with Some _ => [document] | None => [] end)
          fs now [].

(** [cold] after [Get[ConfigNameT](cache, "config_name")]. *)
Definition loaded : @World TestType bytes :=
  mkWorld (mkCache "testdata" unlockedMutex {[ "config_name"%string := 0%nat ]} Minute)
          [mkConfigValue 100 (Some (ConfigNameT, 0%nat)) document]
          [document] testdata 100
          [EvStat "testdata/config_name.json"; EvReadFile "testdata/config_name.json";
           EvUnmarshal document].

(** The file exists and cannot be read (mode 0200). *)
Definition unreadable : gmap string File :=
  {[ "testdata/config_name.json"%string := mkFile 5 document false true ]}.

(** ** The rest of config.go: typed updates, statistics, programs of calls *)

(** [ctx.Err()] as a value, for a clock reading [now]. *)
Definition context_error (ctx : Context) (now : Time) : option error :=
  match ctx with
  | Background => None
  | WithCancel c => if c then Some Canceled else None
  | WithDeadline d => if d <=? now then Some DeadlineExceeded else None
  end.

(** [Stats]: the directory and the names of the loaded configs. *)
Record Stats := mkStats {
  Directory : string;
  Configs : list string
}.

Section Operations.

Context {GoType : Type} `{!EqDecision GoType} {JVal : Type}.
Variable json_Unmarshal : GoType -> bytes -> JVal + string.
(** [json.Marshal(value)] for a [value] of type [T]. *)
Variable json_Marshal : GoType -> JVal -> bytes + string.

Local Notation "x <- m ;; k" := (bind m (fun x => k))
  (at level 100, m at next level, right associativity).
Local Notation "m ;;; k" := (bind m (fun _ => k))
  (at level 100, right associativity).

Implicit Types (w : @World GoType JVal).

(** [UpdateContext[T](ctx, cache, name, value)]; the error of
    [json.Marshal] is an error of encoding/json. *)
Definition UpdateContext (T : GoType) (ctx : Context) (name : string) (value : JVal)
  : @M GoType JVal (option error) :=
  match json_Marshal T value with
  | inr msg => ret (Some (UnmarshalError msg))
  | inl data => Cache_UpdateContext ctx name data
  end.

(** [Update[T](cache, name, value)] *)
Definition Update (T : GoType) (name : string) (value : JVal)
  : @M GoType JVal (option error) :=
  UpdateContext T Background name value.

(** [cache.Stats()].  Go ranges over a map in an order it does not
    specify; the order here is that of [map_to_list], and the
    properties proved of [Configs] do not depend on it. *)
Definition Cache_Stats : @M GoType JVal Stats :=
  RLock ;;;
  defer RUnlock (
    dir <- gets (fun w => directory (cache w)) ;;
    m <- gets (fun w => configs (cache w)) ;;
    ret (mkStats dir (map fst (map_to_list m)))).

(** The calls a program makes on one cache. *)
Inductive call :=
| CallGet (ctx : Context) (name : string)                       (* cache.GetContext *)
| CallGetT (T : GoType) (ctx : Context) (name : string)         (* GetContext[T] *)
| CallUpdate (ctx : Context) (name : string) (data : bytes)     (* cache.UpdateContext *)
| CallUpdateT (T : GoType) (ctx : Context) (name : string) (value : JVal)
                                                                (* UpdateContext[T] *)
| CallStats                                                     (* cache.Stats *)
| CallSyncTimeout (d : Duration).                               (* cache.SyncTimeout *)

Definition perform (c : call) : @M GoType JVal unit :=
  match c with
  | CallGet ctx name => Cache_GetContext ctx name ;;; ret tt
  | CallGetT T ctx name => GetContext json_Unmarshal T ctx name ;;; ret tt
  | CallUpdate ctx name data => Cache_UpdateContext ctx name data ;;; ret tt
  | CallUpdateT T ctx name value => UpdateContext T ctx name value ;;; ret tt
  | CallStats => Cache_Stats ;;; ret tt
  | CallSyncTimeout d => SyncTimeout d
  end.

(** A sequential program: calls, with time passing and other programs
    changing the files in between. *)
Inductive action :=
| Do (c : call)
| Elapse (d : Duration)                  (* [d] nanoseconds pass, if [d] is positive *)
| Outside (fs : gmap string File).       (* the directory now holds [fs] *)

Definition execute (a : action) : @M GoType JVal unit :=
  match a with
  | Do c => perform c
  | Elapse d => modify (fun w => set_clock (clock w + Z.max 0 d) w)
  | Outside fs => modify (set_files fs)
  end.

Fixpoint execute_all (l : list action) : @M GoType JVal unit :=
  match l with
  | [] => ret tt
  | a :: l => execute a ;;; execute_all l
  end.

(** What a program can rely on from one state of the cache to a later
    one: the lock is as it was, time has not gone back, no name has left
    the mapping, no Entry has changed its bytes or its load time, and no
    decoded value has changed. *)
Definition evolves w w' : Prop :=
  lock (cache w') = lock (cache w)
  /\ directory (cache w') = directory (cache w)
  /\ clock w <= clock w'
  /\ (forall name, is_Some (configs (cache w) !! name) ->
        is_Some (configs (cache w') !! name))
  /\ (forall e cv, objs w !! e = Some cv ->
        exists cv', objs w' !! e = Some cv'
                    /\ LastUpdate cv' = LastUpdate cv /\ Raw cv' = Raw cv)
  /\ (forall p v, decoded w !! p = Some v -> decoded w' !! p = Some v).

(** The world after [UpdateContext] has written [data] for [name]: a
    new file can be read, an old one keeps its permissions. *)
Definition written w (name : string) (data : bytes) : World :=
  let path := updatePath w name in
  let readable := match files w !! path with
                  | Some f => Readable f
                  | None => true
                  end in
  set_files (<[path := mkFile (clock w) data readable true]> (files w))
            (log (EvWriteFile path data) w).

(** Every decoded slot that is filled points to the value
    [json.Unmarshal] gives for the bytes of its Entry. *)
Definition slots_decoded w : Prop :=
  forall e cv T p, objs w !! e = Some cv -> Value cv = Some (T, p) ->
    exists v, decoded w !! p = Some v /\ json_Unmarshal T (Raw cv) = inl v.

(** The shape of the memory the code keeps. *)
Definition well_formed w : Prop :=
  no_dangling w /\ timely w /\ slots_decoded w.

(** [R] holds between the world in which [m] is called and the world in
    which it returns or panics. *)
Definition ensures {A} (m : @M GoType JVal A) (R : World -> World -> Prop) : Prop :=
  forall w, match m w with
            | Done _ w' | Panicked _ w' => R w w'
            | _ => True
            end.

(** The guarantee of every call, for a memory of the right shape. *)
Definition kept w w' : Prop :=
  well_formed w -> evolves w w' /\ well_formed w'.

End Operations.

Arguments execute {GoType _ JVal} json_Unmarshal json_Marshal !a _ /.
Arguments SyncTimeout {GoType JVal} duration _ /.

(** ** The HTTP handlers (package config_web) *)

(** Of an [*http.Request] the handlers use the [config] parameter of the
    query and the body; reading the body ends with [io.EOF] or with the
    error [body_error]. *)
Record Request := mkRequest {
  query_config : string;
  req_body : bytes;
  body_error : option string
}.

(** An [http.ResponseWriter]: the status code sent with the header, if
    it has been sent, the body written so far, and the error with which
    every [Write] fails once the connection is gone. *)
Record ResponseWriter := mkResponseWriter {
  status : option Z;
  sent : bytes;
  broken : option string
}.

Definition StatusOK : Z := 200.
Definition StatusBadRequest : Z := 400.
Definition StatusInternalServerError : Z := 500.

(** [rw.WriteHeader(code)]: the first call counts. *)
Definition rw_WriteHeader (code : Z) (rw : ResponseWriter) : ResponseWriter :=
  match status rw with
  | None => mkResponseWriter (Some code) (sent rw) (broken rw)
  | Some _ => rw
  end.

(** [rw.Write(data)]: sends the header with [StatusOK] if none was sent. *)
Definition rw_Write (data : bytes) (rw : ResponseWriter)
  : option string * ResponseWriter :=
  let rw' := rw_WriteHeader StatusOK rw in
  match broken rw' with
  | Some e => (Some e, rw')
  | None => (None, mkResponseWriter (status rw') (sent rw' ++ data) None)
  end.

(** [io.ReadAll(req.Body)] *)
Definition io_ReadAll (req : Request) : bytes + string :=
  match body_error req with
  | Some e => inr e
  | None => inl (req_body req)
  end.

(** The errors the handlers return: one constructor for each
    [fmt.Errorf], with the errors it formats ([errors.Join] of the cause
    and of the error of the response). *)
Inductive handler_error :=
| GetParsingName (err : string) (respErr : option string)
| GetNameNotFound
| GetFindingConfig (err : error) (respErr : option string)
| GetMakingResponse (respErr : string)
| UpdateParsingName (err : string) (respErr : option string)
| UpdateReadingBody (err : string) (respErr : option string)
| UpdateParsingBody (respErr : option string)
| UpdateUpdatingConfig (err : error) (respErr : option string).

Section Web.

Context {GoType : Type} `{!EqDecision GoType} {JVal : Type}.

(** [json.NewDecoder(req.Body).Decode(&body)] for a [RequestSchema]: the
    [Config] it finds and the request with what is left of its body, or
    the error. *)
Variable Decode_RequestSchema : Request -> string * Request + string.
(** [json.Valid] *)
Variable json_Valid : bytes -> bool.
(** [err.Error()] *)
Variable error_Error : error -> string.
(** [json.Marshal(ResponseError{Error: msg})] *)
Variable Marshal_ResponseError : string -> bytes.

Local Notation "x <- m ;; k" := (bind m (fun x => k))
  (at level 100, m at next level, right associativity).
Local Notation "m ;;; k" := (bind m (fun _ => k))
  (at level 100, right associativity).

(** The three lines with which both handlers report an error:
    [rw.WriteHeader(code)], [json.Marshal(ResponseError{...})],
    [rw.Write(data)]. *)
Definition respond_error (code : Z) (msg : string) (rw : ResponseWriter)
  : option string * ResponseWriter :=
  rw_Write (Marshal_ResponseError msg) (rw_WriteHeader code rw).

(** [HandlerGetVerbose(cache)(ctx, rw, req)] *)
Definition HandlerGetVerbose (ctx : Context) (rw : ResponseWriter) (req : Request)
  : @M GoType JVal (option handler_error * ResponseWriter) :=
  let configName := query_config req in
  let parsed :=
    if String.eqb configName EmptyString then
      match Decode_RequestSchema req with
      | inr err => Some err
      | inl _ => None
      end
    else None in
  match parsed with
  | Some err =>
    let '(respErr, rw') := respond_error StatusBadRequest err rw in
    ret (Some (GetParsingName err respErr), rw')
  | None =>
    if String.eqb configName EmptyString then ret (Some GetNameNotFound, rw)
    else
      res <- Cache_Get configName ;;
      let '(resultData, err) := res in
      match err with
      | Some e =>
        let '(respErr, rw') := respond_error StatusInternalServerError (error_Error e) rw in
        ret (Some (GetFindingConfig e respErr), rw')
      | None =>
        let '(respErr, rw') :=
          rw_Write (default [] resultData) (rw_WriteHeader StatusOK rw) in
        match respErr with
        | Some e => ret (Some (GetMakingResponse e), rw')
        | None => ret (None, rw')
        end
      end
  end.

(** [HandlerUpdateVerbose(cache)(ctx, rw, req)] *)
Definition HandlerUpdateVerbose (ctx : Context) (rw : ResponseWriter) (req : Request)
  : @M GoType JVal (option handler_error * ResponseWriter) :=
  let configName := query_config req in
  let parsed :=
    if String.eqb configName EmptyString then
      match Decode_RequestSchema req with
      | inr err => inr err
      | inl (_, req') => inl req'
      end
    else inl req in
  match parsed with
  | inr err =>
    let '(respErr, rw') := respond_error StatusBadRequest err rw in
    ret (Some (UpdateParsingName err respErr), rw')
  | inl req' =>
    match io_ReadAll req' with
    | inr err =>
      let '(respErr, rw') := respond_error StatusBadRequest err rw in
      ret (Some (UpdateReadingBody err respErr), rw')
    | inl bodyData =>
      if negb (json_Valid bodyData) then
        let '(respErr, rw') :=
          respond_error StatusBadRequest "config sent is invalid as json" rw in
        ret (Some (UpdateParsingBody respErr), rw')
      else
        err <- Cache_Update configName bodyData ;;
        match err with
        | Some e =>
          let '(respErr, rw') :=
            respond_error StatusInternalServerError (error_Error e) rw in
          ret (Some (UpdateUpdatingConfig e respErr), rw')
        | None => ret (None, rw_WriteHeader StatusOK rw)
        end
    end
  end.

(** [HandlerGet(cache)(w, r)] and [HandlerUpdate(cache)(w, r)]: the
    error is dropped. *)
Definition HandlerGet (rw : ResponseWriter) (req : Request)
  : @M GoType JVal ResponseWriter :=
  r <- HandlerGetVerbose Background rw req ;; ret (snd r).

Definition HandlerUpdate (rw : ResponseWriter) (req : Request)
  : @M GoType JVal ResponseWriter :=
  r <- HandlerUpdateVerbose Background rw req ;; ret (snd r).

End Web.

(** ** The HTTP client: [Client.init] *)

Definition DefaultWebUrlGet : string := "/v1/config/get".
Definition DefaultWebUrlUpdate : string := "/v1/config/update".

(** [*http.Client]: [http.DefaultClient] or another one. *)
Inductive http_Client := DefaultClient | OtherClient (id : nat).

Record Client := mkClient {
  Host : string;
  UrlGet : string;
  UrlUpdate : string;
  HttpClient : option http_Client;      (* the field [Client] *)
  client_lock : RWMutex;
  initialized : bool
}.

(** [strings.HasSuffix] and [strings.TrimSuffix] *)
Definition HasSuffix (s suffix : string) : bool :=
  (String.length suffix <=? String.length s)%nat
  && String.eqb (substring (String.length s - String.length suffix)
                           (String.length suffix) s) suffix.

Definition TrimSuffix (s suffix : string) : string :=
  if HasSuffix s suffix
  then substring 0 (String.length s - String.length suffix) s
  else s.

Definition with_lock (l : RWMutex) (c : Client) : Client :=
  mkClient (Host c) (UrlGet c) (UrlUpdate c) (HttpClient c) l (initialized c).

(** [client.init()]: the client as the call leaves it, or [None] when
    the call blocks on the lock. *)
Definition Client_init (c : Client) : option Client :=
  let l := client_lock c in
  (* client.lock.RLock() *)
  if writer l then None
  else
    let c1 := with_lock (mkRWMutex (S (readers l)) false) c in
    if initialized c1 then Some c1
    else
      (* client.lock.RUnlock(); client.lock.Lock() *)
      match readers l with
      | S _ => None
      | O =>
        let c2 := with_lock (mkRWMutex 0 true) c1 in
        (* defer client.lock.Unlock() *)
        if initialized c2 then Some (with_lock unlockedMutex c2)
        else
          Some (with_lock unlockedMutex
                  (mkClient (TrimSuffix (Host c2) "/") DefaultWebUrlGet
                            DefaultWebUrlUpdate (Some DefaultClient)
                            (client_lock c2) true))
      end.

(** [n] calls of a method of the client, one after the other: each
    starts with [client.init()]. *)
Fixpoint init_times (n : nat) (c : Client) : option Client :=
  match n with
  | O => Some c
  | S n => match Client_init c with
           | Some c' => init_times n c'
           | None => None
           end
  end.

(** A stand-in for [json.Marshal]: a value is its own document; the
    empty value stands for one that cannot be encoded. *)
Definition test_Marshal (T : TestType) (v : bytes) : bytes + string :=
  match v with
  | [] => inr "json: unsupported value"%string
  | _ => inl v
  end.

(** The file after somebody has edited it, at time 150. *)
Definition document2 : bytes := list_byte_of_string "{integer:2}".
Definition edited : gmap string File :=
  {[ "testdata/config_name.json"%string := mkFile 150 document2 true true ]}.

(** A file whose modification time is Go's zero time. *)
Definition ancient : gmap string File :=
  {[ "testdata/config_name.json"%string := mkFile 0 document true true ]}.

(** [config_name] loaded at time 100 from a file that is not JSON. *)
Definition garbage : bytes := list_byte_of_string "integer: 1".
Definition garbled : @World TestType bytes :=
  mkWorld (mkCache "testdata" unlockedMutex {[ "config_name"%string := 0%nat ]} Minute)
          [mkConfigValue 100 None garbage] [] testdata 150 [].

(** [warm] after [cache.SyncTimeout(0)]. *)
Definition impatient : @World TestType bytes :=
  mkWorld (mkCache "testdata" unlockedMutex {[ "config_name"%string := 0%nat ]} 0)
          [mkConfigValue 100 None document] [] testdata 100 [].

(** A program in the manner of TestConfig_Basic: a typed get, a pause,
    an update, another typed get, the statistics. *)
Definition basic_program : list (@action TestType bytes) :=
  [Do (CallGetT ConfigNameT Background "config_name");
   Elapse (2 * Minute);
   Do (CallUpdate Background "config_name" document2);
   Elapse (2 * Minute);
   Do (CallGetT MapStringString Background "config_name");
   Do CallStats].

(** Stand-ins for the JSON functions of the handlers: a body is JSON
    when it starts with an opening brace; the decoder of the name reads
    the whole body. *)
Definition test_Valid (b : bytes) : bool :=
  match b with
  | Byte.x7b :: _ => true
  | _ => false
  end.
Definition test_Decode (req : Request) : string * Request + string :=
  if test_Valid (req_body req)
  then inl ("config_name"%string, mkRequest (query_config req) [] (body_error req))
  else inr "invalid character looking for beginning of value"%string.
Definition test_Error (e : error) : string :=
  match e with
  | PathError op path _ => op +:+ " " +:+ path
  | Canceled => "context canceled"
  | DeadlineExceeded => "context deadline exceeded"
  | UnmarshalError msg => msg
  end.
Definition test_ResponseError (msg : string) : bytes := list_byte_of_string msg.

(** A response nothing has been written to, on a live connection. *)
Definition new_response : ResponseWriter := mkResponseWriter None [] None.

(** [GET ?config=config_name], and a POST that names the config in the
    body only. *)
Definition get_request : Request := mkRequest "config_name" [] None.
Definition post_request : Request := mkRequest "config_name" document2 None.
Definition unnamed_request : Request := mkRequest EmptyString document2 None.

(** A client as a caller may set it up. *)
Definition custom_client : Client :=
  mkClient "http://localhost:8080//" "/custom/get" "/custom/update"
           (Some (OtherClient 1)) unlockedMutex false.

(** Running the code on a world: simplify, and use the known results of
    look-ups and tests. *)
Ltac use_known :=
  match goal with
  | H : ?m !! ?k = _ |- context [?m !! ?k] => rewrite H
  | H : (?a <? ?b) = _ |- context [?a <? ?b] => rewrite H
  | H : (?a <=? ?b) = _ |- context [?a <=? ?b] => rewrite H
  | H : time_After ?a ?b = _ |- context [time_After ?a ?b] => rewrite H
  | H : Readable ?f = _ |- context [Readable ?f] => rewrite H
  | H : Writable ?f = _ |- context [Writable ?f] => rewrite H
  end.
Ltac run := simpl; repeat (use_known; simpl).

(** ** The store: sequential properties *)

Section StoreProperties.
Context {GoType : Type} `{!EqDecision GoType} {JVal : Type}.
Implicit Types (w : @World GoType JVal) (cv : @configValue GoType).

(** C4. An Entry inside its freshness window is returned as it is:
    the world after the call is the world before it (no stat, no read,
    nothing written), and [updated] is false. *)
Theorem fresh_entry_served_without_io w name p cv :
  writer (lock (cache w)) = false ->
  configs (cache w) !! name = Some p ->
  objs w !! p = Some cv ->
  time_Sub (clock w) (LastUpdate cv) < syncTimeout (cache w) ->
  verboseGet Background name w = Done (Some p, false, None) w
  /\ Cache_Get name w = Done (Some (Raw cv), None) w.
Proof.
  intros Hl Hm Ho Ht.
  destruct w as [[dir [r wr] m tmo] o d f c tr]; simpl in *; subst.
  assert (Hb : (time_Sub c (LastUpdate cv) <? tmo) = true) by (apply Z.ltb_lt; lia).
  unfold Cache_Get, Cache_GetContext, verboseGet, verboseGet_shared.
  run. done.
Qed.

(** C5. An expired Entry whose file has not been modified after
    [loadedAt]: one stat, no read, and the same Entry comes back; the
    only difference in the world is the stat in the trace. *)
Theorem unmodified_file_stat_only w name p cv f :
  writer (lock (cache w)) = false ->
  configs (cache w) !! name = Some p ->
  objs w !! p = Some cv ->
  syncTimeout (cache w) <= time_Sub (clock w) (LastUpdate cv) ->
  files w !! getPath w name = Some f ->
  ModTime f <= LastUpdate cv ->
  let w' := log (EvStat (getPath w name)) w in
  verboseGet Background name w = Done (Some p, false, None) w'
  /\ Cache_Get name w = Done (Some (Raw cv), None) w'
  /\ entry w' name = Some cv.
Proof.
  intros Hl Hm Ho Ht Hf Hmt.
  destruct w as [[dir [r wr] m tmo] o d fs c tr]; unfold getPath, entry in *; simpl in *; subst.
  assert (Hb : (time_Sub c (LastUpdate cv) <? tmo) = false) by (apply Z.ltb_ge; lia).
  assert (Ha : time_After (ModTime f) (LastUpdate cv) = false)
    by (unfold time_After; apply Z.ltb_ge; lia).
  unfold Cache_Get, Cache_GetContext, verboseGet, verboseGet_shared.
  run. done.
Qed.

(** C3. When the Entry is absent or has expired and the stat fails,
    [get] returns the error of the stat, whether or not the mapping
    holds an Entry for the name. *)
Theorem stat_error_not_masked w name :
  writer (lock (cache w)) = false ->
  no_dangling w ->
  fresh w name = false ->
  files w !! getPath w name = None ->
  let err := PathError "stat" (getPath w name) ENOENT in
  let w' := log (EvStat (getPath w name)) w in
  verboseGet Background name w = Done (None, false, Some err) w'
  /\ Cache_Get name w = Done (None, Some err) w'.
Proof.
  intros Hl Hwf Hfr Hf.
  destruct w as [[dir [r wr] m tmo] o d fs c tr];
    unfold getPath, fresh, entry, no_dangling in *; simpl in *; subst.
  unfold Cache_Get, Cache_GetContext, verboseGet, verboseGet_shared. simpl.
  destruct (m !! name) as [p|] eqn:Hm; simpl.
  - destruct (Hwf _ _ Hm) as [cv Ho]. rewrite Ho in *. run. done.
  - run. done.
Qed.

Lemma entry_reloaded w name path data :
  entry (reloaded w name path data) name = Some (mkConfigValue (clock w) None data).
Proof.
  destruct w as [[dir l m tmo] o d fs c tr]. unfold entry, reloaded. simpl.
  rewrite lookup_insert_eq. rewrite lookup_app_r by lia.
  by rewrite Nat.sub_diag.
Qed.

(** C6. Under the write lock [verboseGet] looks the name up again.  An
    Entry loaded at or after the modification time seen by the stat is
    returned as it is ([updated] false, the world unchanged).  Otherwise
    the file is read, and when the read succeeds a new Entry with
    [LastUpdate] the time of the read, [Raw] the contents and no decoded
    value is installed under the name, and returned with [updated]
    true. *)
Theorem exclusive_recheck_then_reload w name path modTime :
  lock (cache w) = unlockedMutex ->
  no_dangling w ->
  (forall p cv,
     configs (cache w) !! name = Some p -> objs w !! p = Some cv ->
     modTime <= LastUpdate cv ->
     verboseGet_exclusive Background name path modTime w
     = Done (Some p, false, None) w)
  /\
  (forall f,
     match entry w name with
     | Some cv => LastUpdate cv < modTime
     | None => True
     end ->
     files w !! path = Some f -> Readable f = true ->
     verboseGet_exclusive Background name path modTime w
     = Done (Some (length (objs w)), true, None) (reloaded w name path (Data f))).
Proof.
  intros Hl Hwf.
  destruct w as [[dir l m tmo] o d fs c tr];
    unfold entry, no_dangling, reloaded in *; simpl in *; subst.
  unfold verboseGet_exclusive. split.
  - intros p cv Hm Ho Ht.
    assert (Ha : time_After modTime (LastUpdate cv) = false)
      by (unfold time_After; apply Z.ltb_ge; lia).
    run. done.
  - intros f He Hf Hr. simpl.
    destruct (m !! name) as [p|] eqn:Hm; simpl.
    + destruct (Hwf _ _ Hm) as [cv Ho]. rewrite Ho in *.
      assert (Ha : time_After modTime (LastUpdate cv) = true)
        by (unfold time_After; apply Z.ltb_lt; lia).
      run. done.
    + run. done.
Qed.

(** What [verboseGet] does once the read lock is given up on the slow
    path and the read of the file fails: the error branch defers
    [RUnlock] while the write lock is held. *)
Lemma exclusive_read_error_fatal w name path modTime :
  lock (cache w) = unlockedMutex ->
  no_dangling w ->
  match entry w name with
  | Some cv => LastUpdate cv < modTime
  | None => True
  end ->
  match files w !! path with
  | Some f => Readable f = false
  | None => True
  end ->
  verboseGet_exclusive Background name path modTime w = Fatal RUnlockOfUnlocked.
Proof.
  intros Hl Hwf He Hf.
  destruct w as [[dir l m tmo] o d fs c tr];
    unfold entry, no_dangling in *; simpl in *; subst.
  unfold verboseGet_exclusive. simpl.
  destruct (m !! name) as [p|] eqn:Hm; simpl.
  - destruct (Hwf _ _ Hm) as [cv Ho]. rewrite Ho in *.
    assert (Ha : time_After modTime (LastUpdate cv) = true)
      by (unfold time_After; apply Z.ltb_lt; lia).
    run. destruct (fs !! path) as [f|]; run; done.
  - destruct (fs !! path) as [f|]; run; done.
Qed.

(** C2, as the code behaves.  On the slow path of [get] (Entry absent
    or expired, stat successful, file modified after [LastUpdate]) a
    failing read does not come back as an error: the branch after
    [os.ReadFile] defers [RUnlock] while the write lock is held, and the
    runtime stops the program with "sync: RUnlock of unlocked
    RWMutex". *)
Theorem get_read_error_fatal w name f :
  lock (cache w) = unlockedMutex ->
  no_dangling w ->
  fresh w name = false ->
  files w !! getPath w name = Some f ->
  lastUpdate w name < ModTime f ->
  Readable f = false ->
  Cache_Get name w = Fatal RUnlockOfUnlocked.
Proof.
  intros Hl Hwf Hfr Hf Hlt Hr.
  pose proof (exclusive_read_error_fatal
                (log (EvStat (getPath w name)) w) name (getPath w name) (ModTime f)) as HX.
  destruct w as [[dir l m tmo] o d fs c tr];
    unfold getPath, fresh, lastUpdate, entry, no_dangling, unlockedMutex in *;
    simpl in *; subst.
  assert (Ha : forall t, t < ModTime f -> time_After (ModTime f) t = true)
    by (intros; unfold time_After; apply Z.ltb_lt; lia).
  rewrite Hf, Hr in HX.
  unfold Cache_Get, Cache_GetContext, verboseGet, verboseGet_shared. simpl.
  destruct (m !! name) as [p|] eqn:Hm; simpl.
  - destruct (Hwf _ _ Hm) as [cv Ho]. rewrite Ho in *.
    specialize (Ha _ Hlt). run. rewrite HX; done.
  - specialize (Ha _ Hlt). run. rewrite HX; done.
Qed.

(** C7. [update] writes the bytes to [<directory>/<name>.json] and
    touches nothing in memory: the cache (the mapping included), the
    Entries and the decoded values are the same after the call, whether
    the write succeeds or fails.  After a successful write the file
    holds the bytes; after a failed one the files are unchanged and the
    error of the write is returned. *)
Theorem update_writes_file_only w name data :
  lock (cache w) = unlockedMutex ->
  exists err w',
    Cache_Update name data w = Done err w'
    /\ cache w' = cache w /\ objs w' = objs w /\ decoded w' = decoded w
    /\ trace w' = trace w ++ [EvWriteFile (updatePath w name) data]
    /\ match err with
       | None =>
         (exists f, files w' !! updatePath w name = Some f /\ Data f = data)
         /\ (forall q, q <> updatePath w name -> files w' !! q = files w !! q)
       | Some e =>
         e = PathError "open" (updatePath w name) EACCES /\ files w' = files w
       end.
Proof.
  intros Hl.
  destruct w as [[dir l m tmo] o d fs c tr]; unfold updatePath; simpl in *; subst.
  unfold Cache_Update, Cache_UpdateContext. simpl.
  destruct (fs !! filepath_Join dir (Sprintf_json name)) as [f|] eqn:Hf; simpl.
  - destruct (Writable f) eqn:Hw; simpl.
    + eexists None, _. split; [reflexivity|]. simpl. repeat split; try done.
      * eexists. rewrite lookup_insert_eq. done.
      * intros q Hq. by rewrite lookup_insert_ne.
    + eexists (Some _), _. split; [reflexivity|]. simpl. done.
  - eexists None, _. split; [reflexivity|]. simpl. repeat split; try done.
    + eexists. rewrite lookup_insert_eq. done.
    + intros q Hq. by rewrite lookup_insert_ne.
Qed.


(** *** What a returning [verboseGet] has done *)

Ltac split_step :=
  match goal with
  | H : Done _ _ = Done _ _ |- _ => injection H; clear H; intros
  | H : (_, _) = (_, _) |- _ => injection H; clear H; intros
  | H : inl _ = inl _ |- _ => injection H; clear H; intros
  | H : inr _ = inr _ |- _ => injection H; clear H; intros
  | H : S _ = S _ |- _ => injection H; clear H; intros
  | H : inl _ = inr _ |- _ => discriminate H
  | H : inr _ = inl _ |- _ => discriminate H
  | H : Panicked _ _ = Done _ _ |- _ => discriminate H
  | H : Fatal _ = Done _ _ |- _ => discriminate H
  | H : Blocked = Done _ _ |- _ => discriminate H
  | H : context [match ?x with _ => _ end] |- _ => destruct x eqn:?
  end.
Ltac split_cases := subst; simpl in *; repeat (split_step; subst; simpl in *).

Lemma verboseGet_shared_inv ctx w name r w' :
  verboseGet_shared ctx name w = Done r w' ->
  same_memory w w' /\ clock w' = clock w
  /\ match r with
     | inl (cfg, updated, err) =>
       updated = false
       /\ match err with
          | None => cfg = configs (cache w) !! name
          | Some _ => cfg = None
          end
     | inr (path, modTime) => path = getPath w name
     end.
Proof.
  destruct w as [[dir [r0 wr] m tmo] o d fs c tr].
  unfold verboseGet_shared, same_memory, getPath. intros H.
  destruct ctx as [|[|]|dl]; split_cases; done.
Qed.

Lemma verboseGet_shared_trace ctx w name r w' :
  verboseGet_shared ctx name w = Done r w' ->
  files w' = files w
  /\ (trace w' = trace w \/ trace w' = trace w ++ [EvStat (getPath w name)]).
Proof.
  destruct w as [[dir [r0 wr] m tmo] o d fs c tr].
  unfold verboseGet_shared, getPath. intros H.
  destruct ctx as [|[|]|dl]; split_cases; auto.
Qed.

Lemma verboseGet_exclusive_inv ctx w name path modTime cfg updated err w' :
  verboseGet_exclusive ctx name path modTime w = Done (cfg, updated, err) w' ->
  clock w' = clock w
  /\ if updated
     then err = None /\ cfg = Some (length (objs w))
          /\ exists data, w' = reloaded w name path data
     else same_memory w w'
          /\ match err with
             | None => cfg = configs (cache w) !! name /\ cfg <> None
             | Some _ => cfg = None
             end.
Proof.
  destruct w as [[dir [r0 wr] m tmo] o d fs c tr].
  unfold verboseGet_exclusive, same_memory, reloaded. intros H.
  destruct ctx as [|[|]|dl]; split_cases; try done.
  all: do 3 (split; [done|]); by eexists.
Qed.

Lemma verboseGet_exclusive_trace ctx w name path modTime res w' :
  verboseGet_exclusive ctx name path modTime w = Done res w' ->
  files w' = files w
  /\ (trace w' = trace w \/ trace w' = trace w ++ [EvReadFile path]).
Proof.
  destruct w as [[dir [r0 wr] m tmo] o d fs c tr].
  unfold verboseGet_exclusive. intros H.
  destruct ctx as [|[|]|dl]; split_cases; auto.
Qed.

Lemma same_memory_trans w1 w2 w3 :
  same_memory w1 w2 -> same_memory w2 w3 -> same_memory w1 w3.
Proof. unfold same_memory. intros (-> & -> & ->) (-> & -> & ->). done. Qed.

Lemma entry_same_memory w w' name :
  same_memory w w' -> entry w' name = entry w name.
Proof. unfold same_memory, entry. intros (-> & -> & _). done. Qed.

Lemma reloaded_lookup w name path data :
  configs (cache (reloaded w name path data)) !! name = Some (length (objs w))
  /\ objs (reloaded w name path data) !! length (objs w)
     = Some (mkConfigValue (clock w) None data).
Proof.
  destruct w as [[dir l m tmo] o d fs c tr]. unfold reloaded. simpl.
  rewrite lookup_insert_eq. rewrite lookup_app_r by lia.
  by rewrite Nat.sub_diag.
Qed.

(** Whatever [verboseGet] returns without an error is what the mapping
    holds for the name when it returns; without a reload the memory is
    untouched, and a reload allocates a new Entry with an empty decoded
    slot. *)
Lemma verboseGet_inv ctx w name cfg updated err w' :
  verboseGet ctx name w = Done (cfg, updated, err) w' ->
  clock w' = clock w
  /\ (err = None -> cfg = configs (cache w') !! name)
  /\ (err <> None -> cfg = None)
  /\ if updated
     then err = None
          /\ exists data, cfg = Some (length (objs w))
             /\ objs w' = objs w ++ [mkConfigValue (clock w) None data]
             /\ decoded w' = decoded w
     else same_memory w w'.
Proof.
  unfold verboseGet. simpl. intros H.
  destruct (verboseGet_shared ctx name w) as [r w1| | |] eqn:H1; try done.
  apply verboseGet_shared_inv in H1 as (Hm1 & Hc1 & Hr).
  destruct r as [[[cfg1 upd1] err1]|[path modTime]]; simpl in H.
  - injection H as -> -> -> ->. destruct Hr as [-> Hr].
    destruct Hm1 as (Hca & Ho & Hd).
    split; [done|]. split; [|split].
    + intros ->. by rewrite Hca.
    + intros. by destruct err.
    + done.
  - apply verboseGet_exclusive_inv in H as (Hc2 & Hr2).
    split; [congruence|].
    destruct updated.
    + destruct Hr2 as (-> & -> & data & ->).
      destruct (reloaded_lookup w1 name path data) as [E1 E2].
      destruct Hm1 as (Hca & Ho & Hd). rewrite Ho in *.
      split; [by intros _|]. split; [done|]. split; [done|].
      exists data. split; [done|].
      destruct w1 as [[? ? ? ?] ? ? ? ? ?]; simpl in *; subst. done.
    + destruct Hr2 as [Hm2 Hr2].
      pose proof (same_memory_trans _ _ _ Hm1 Hm2) as Hm.
      destruct Hm2 as (Hca & _). 
      split; [|split; [|done]].
      * intros ->. destruct Hr2 as [-> _]. by rewrite Hca.
      * intros. by destruct err.
Qed.

End StoreProperties.

(** ** The typed accessor: sequential properties *)

Section TypedProperties.
Context {GoType : Type} `{!EqDecision GoType} {JVal : Type}.
Variable json_Unmarshal : GoType -> bytes -> JVal + string.
Implicit Types (w : @World GoType JVal) (cv : @configValue GoType).

Lemma GetContext_cached_inv T cfg updated w r w' :
  GetContext_cached T cfg updated w = Done r w' ->
  w' = w
  /\ exists e cv, cfg = Some e /\ objs w !! e = Some cv
     /\ match r with
        | Some p => updated = false /\ Value cv = Some (T, p)
        | None => updated = true \/ Value cv = None
        end.
Proof.
  unfold GetContext_cached. intros H.
  destruct cfg as [e|]; simpl in H; [|done].
  destruct (objs w !! e) as [cv|] eqn:Ho; simpl in H; [|done].
  destruct (Value cv) as [[U q]|] eqn:Hv; simpl in H.
  - destruct updated; simpl in H.
    + injection H as <- <-. split; [done|]. exists e, cv. auto.
    + destruct (decide (U = T)) as [->|]; simpl in H; [|done].
      injection H as <- <-. split; [done|]. exists e, cv. auto.
  - injection H as <- <-. split; [done|]. exists e, cv. auto.
Qed.

Lemma GetContext_decode_inv T cfg updated w r err w' :
  GetContext_decode json_Unmarshal T Background cfg updated w = Done (r, err) w' ->
  lock (cache w) = unlockedMutex
  /\ exists e cv, cfg = Some e /\ objs w !! e = Some cv
     /\ ((updated = false /\ w' = w /\ err = None
          /\ exists p, r = Some p /\ Value cv = Some (T, p))
         \/ ((updated = true \/ Value cv = None)
             /\ match json_Unmarshal T (Raw cv) with
                | inl v => r = Some (length (decoded w)) /\ err = None
                           /\ w' = decoded_into w T e cv v
                | inr msg => r = None /\ err = Some (UnmarshalError msg)
                             /\ w' = log (EvUnmarshal (Raw cv)) w
                end)).
Proof.
  destruct w as [[dir [r0 wr] m tmo] o d fs c tr].
  unfold GetContext_decode, decoded_into, unlockedMutex. intros H. simpl in *.
  destruct wr; [done|]. destruct r0; [|done]. simpl in H.
  split; [done|].
  destruct cfg as [e|]; simpl in H; [|done].
  destruct (o !! e) as [cv|] eqn:Ho; simpl in H; [|done].
  exists e, cv. split; [done|]. split; [done|].
  assert (Hdec :
    match json_Unmarshal T (Raw cv) with
    | inl v =>
      Done (Some (length d), @None error)
        (mkWorld (mkCache dir (mkRWMutex 0 false) m tmo)
           (<[e := mkConfigValue (LastUpdate cv) (Some (T, length d)) (Raw cv)]> o)
           (d ++ [v]) fs c (tr ++ [EvUnmarshal (Raw cv)]))
    | inr msg =>
      Done (None, Some (UnmarshalError msg))
        (mkWorld (mkCache dir (mkRWMutex 0 false) m tmo) o d fs c
           (tr ++ [EvUnmarshal (Raw cv)]))
    end = Done (r, err) w' ->
    match json_Unmarshal T (Raw cv) with
    | inl v => r = Some (length d) /\ err = None
               /\ w' = mkWorld (mkCache dir (mkRWMutex 0 false) m tmo)
                    (<[e := mkConfigValue (LastUpdate cv) (Some (T, length d)) (Raw cv)]> o)
                    (d ++ [v]) fs c (tr ++ [EvUnmarshal (Raw cv)])
    | inr msg => r = None /\ err = Some (UnmarshalError msg)
                 /\ w' = mkWorld (mkCache dir (mkRWMutex 0 false) m tmo) o d fs c
                      (tr ++ [EvUnmarshal (Raw cv)])
    end).
  { destruct (json_Unmarshal T (Raw cv)); intros [= <- <- <-]; done. }
  destruct (Value cv) as [[U q]|] eqn:Hv; simpl in H.
  - destruct updated; simpl in H.
    + right. split; [by left|]. apply Hdec.
      destruct (json_Unmarshal T (Raw cv)); simpl in H; [|done].
      rewrite Ho in H. simpl in H. done.
    + left. destruct (decide (U = T)) as [->|]; simpl in H; [|done].
      injection H as <- <- <-. eauto 10.
  - right. split; [by right|]. apply Hdec.
    destruct (json_Unmarshal T (Raw cv)); simpl in H; [|done].
    rewrite Ho in H. simpl in H. done.
Qed.


Lemma decoded_into_lookup w T e cv v :
  objs w !! e = Some cv ->
  cache (decoded_into w T e cv v) = cache w
  /\ objs (decoded_into w T e cv v) !! e
     = Some (mkConfigValue (LastUpdate cv) (Some (T, length (decoded w))) (Raw cv)).
Proof.
  intros Ho. destruct w as [[dir l m tmo] o d fs c tr]. unfold decoded_into. simpl in *.
  split; [done|]. apply list_lookup_insert_eq. by eapply lookup_lt_Some.
Qed.

(** After a successful [Get[T]] the mapping holds, for the name, an
    Entry whose decoded slot is the returned pointer, typed [*T]. *)
Lemma GetContext_success_slot T name w p err w1 :
  GetContext json_Unmarshal T Background name w = Done (Some p, err) w1 ->
  err = None
  /\ exists e cv, configs (cache w1) !! name = Some e /\ objs w1 !! e = Some cv
     /\ Value cv = Some (T, p).
Proof.
  unfold GetContext. simpl. intros H.
  destruct (verboseGet Background name w) as [[[cfg updated] verr] w'| | |] eqn:HV;
    try done.
  apply verboseGet_inv in HV as (_ & Hcfg & _ & _).
  destruct verr as [e0|]; simpl in H; [done|]. specialize (Hcfg eq_refl).
  destruct (GetContext_cached T cfg updated w') as [r w2| | |] eqn:HC; try done.
  apply GetContext_cached_inv in HC as (-> & e & cv & -> & Ho & Hr).
  destruct r as [q|]; simpl in H.
  - injection H as -> <- <-. destruct Hr as [_ Hv]. split; [done|]. by exists e, cv.
  - apply GetContext_decode_inv in H as (_ & e' & cv' & [= <-] & Ho' & Hd).
    rewrite Ho in Ho'. injection Ho' as <-.
    destruct Hd as [(_ & -> & -> & q & [= ->] & Hv)|[_ Hd]].
    + split; [done|]. by exists e, cv.
    + destruct (json_Unmarshal T (Raw cv)) as [v|msg]; [|by destruct Hd].
      destruct Hd as ([= ->] & -> & ->). split; [done|].
      destruct (decoded_into_lookup w' T e cv v Ho) as [Hca Hl].
      exists e, (mkConfigValue (LastUpdate cv) (Some (T, length (decoded w'))) (Raw cv)).
      rewrite Hca. done.
Qed.

(** C1, as the code behaves.  After [Get[A]] has succeeded, a [Get[B]]
    for the same name, with [B] another type, that is resolved without
    a reload ([verboseGet] returns [updated = false]) does not return:
    the type assertion [cfg.Value.( *B )] panics.  No pointer and no
    error value is produced. *)
Theorem mismatched_type_panics (A B : GoType) name w p err w1 :
  A <> B ->
  GetContext json_Unmarshal A Background name w = Done (Some p, err) w1 ->
  forall w2 cfg w3,
    same_memory w1 w2 ->
    verboseGet Background name w2 = Done (cfg, false, None) w3 ->
    GetContext json_Unmarshal B Background name w2
    = Panicked (InterfaceConversion A B) w3.
Proof.
  intros Hne HA w2 cfg w3 Hsame HV.
  apply GetContext_success_slot in HA as (_ & e & cv & Hm & Ho & Hv).
  pose proof HV as HV'.
  apply verboseGet_inv in HV' as (_ & Hcfg & _ & Hmem). specialize (Hcfg eq_refl).
  destruct Hsame as (Hc12 & Ho12 & _). destruct Hmem as (Hc23 & Ho23 & _).
  assert (cfg = Some e) as -> by (rewrite Hcfg, Hc23, Hc12; done).
  assert (Ho3 : objs w3 !! e = Some cv) by (rewrite Ho23, Ho12; done).
  unfold GetContext. simpl. rewrite HV. simpl.
  unfold GetContext_cached. simpl. rewrite Ho3. simpl. rewrite Hv. simpl.
  destruct (decide (A = B)); [done|]. done.
Qed.

End TypedProperties.

(** ** Names and paths *)

Section Names.

Example TrimSpace_spaces : TrimSpace "  config_name " = "config_name"%string.
Proof. reflexivity. Qed.

Example TrimSpace_inner : TrimSpace " a b" = "a b"%string.
Proof. reflexivity. Qed.

Example TrimSpace_tab_newline :
  TrimSpace (String "009" (String "x" (String "013" (String "010" ""))))
  = "x"%string.
Proof. reflexivity. Qed.

(** U+00A0 in front, U+3000 at the end. *)
Example TrimSpace_unicode :
  TrimSpace (String "194" (String "160" (String "x"
               (String "227" (String "128" (String "128" ""))))))
  = "x"%string.
Proof. reflexivity. Qed.

(** A lone continuation byte is not white space. *)
Example TrimSpace_invalid : TrimSpace (String "160" "x") = String "160" "x".
Proof. reflexivity. Qed.

Lemma trimLeft_shorter n : forall s,
  (length s <= n)%nat ->
  trimLeft s = s \/ (length (trimLeft s) < length s)%nat.
Proof.
  induction n as [|n IH]; intros s Hn.
  - destruct s; [by left|simpl in Hn; lia].
  - destruct s as [|c1 s1]; [by left|]. simpl in *.
    assert (Hs : forall s', (length s' <= n)%nat -> (length (trimLeft s') <= length s')%nat).
    { intros s' Hs'. destruct (IH s' Hs') as [->|?]; lia. }
    destruct (asciiSpace c1).
    { right. specialize (Hs s1). lia. }
    destruct s1 as [|c2 s2]; [by left|]. simpl in *.
    destruct (space2 c1 c2).
    { right. specialize (Hs s2). lia. }
    destruct s2 as [|c3 s3]; [by left|]. simpl in *.
    destruct (space3 c1 c2 c3); [|by left].
    right. specialize (Hs s3). lia.
Qed.

Lemma trimLeftRev_shorter n : forall s,
  (length s <= n)%nat ->
  trimLeftRev s = s \/ (length (trimLeftRev s) < length s)%nat.
Proof.
  induction n as [|n IH]; intros s Hn.
  - destruct s; [by left|simpl in Hn; lia].
  - destruct s as [|c1 s1]; [by left|]. simpl in *.
    assert (Hs : forall s', (length s' <= n)%nat -> (length (trimLeftRev s') <= length s')%nat).
    { intros s' Hs'. destruct (IH s' Hs') as [->|?]; lia. }
    destruct (asciiSpace c1).
    { right. specialize (Hs s1). lia. }
    destruct s1 as [|c2 s2]; [by left|]. simpl in *.
    destruct (space2 c2 c1).
    { right. specialize (Hs s2). lia. }
    destruct s2 as [|c3 s3]; [by left|]. simpl in *.
    destruct (space3 c3 c2 c1); [|by left].
    right. specialize (Hs s3). lia.
Qed.

Lemma trimLeft_le s : (length (trimLeft s) <= length s)%nat.
Proof. destruct (trimLeft_shorter (length s) s) as [->|?]; lia. Qed.

Lemma trimRight_le s : (length (trimRight s) <= length s)%nat.
Proof.
  unfold trimRight. rewrite length_rev.
  destruct (trimLeftRev_shorter (length (rev s)) (rev s)) as [->|?]; [lia| |];
    rewrite ?length_rev in *; lia.
Qed.

(** White space in front is cut. *)
Lemma trimLeft_leading ws rest :
  isSpaceRune ws = true ->
  (length (trimLeft (ws ++ rest)) < length (ws ++ rest))%nat.
Proof.
  intros Hws.
  destruct ws as [|c1 [|c2 [|c3 [|]]]]; simpl in Hws; try done; simpl.
  - rewrite Hws. pose proof (trimLeft_le rest). lia.
  - destruct (asciiSpace c1).
    + pose proof (trimLeft_le (c2 :: rest)). simpl in *. lia.
    + rewrite Hws. pose proof (trimLeft_le rest). lia.
  - destruct (asciiSpace c1).
    + pose proof (trimLeft_le (c2 :: c3 :: rest)). simpl in *. lia.
    + destruct (space2 c1 c2).
      * pose proof (trimLeft_le (c3 :: rest)). simpl in *. lia.
      * rewrite Hws. pose proof (trimLeft_le rest). lia.
Qed.

(** White space at the end is cut. *)
Lemma trimRight_trailing ws rest :
  isSpaceRune ws = true ->
  (length (trimRight (rest ++ ws)) < length (rest ++ ws))%nat.
Proof.
  intros Hws. unfold trimRight. rewrite length_rev, rev_app_distr.
  assert (Hle : forall s, (length (trimLeftRev s) <= length s)%nat).
  { intros s. destruct (trimLeftRev_shorter (length s) s) as [->|?]; lia. }
  rewrite length_app. rewrite <- (length_rev rest).
  destruct ws as [|c1 [|c2 [|c3 [|]]]]; simpl in Hws; try done; simpl.
  - rewrite Hws. pose proof (Hle (rev rest)). lia.
  - destruct (asciiSpace c2).
    + pose proof (Hle (c1 :: rev rest)). simpl in *. lia.
    + rewrite Hws. pose proof (Hle (rev rest)). lia.
  - destruct (asciiSpace c3).
    + pose proof (Hle (c2 :: c1 :: rev rest)). simpl in *. lia.
    + destruct (space2 c2 c3).
      * pose proof (Hle (c1 :: rev rest)). simpl in *. lia.
      * rewrite Hws. pose proof (Hle (rev rest)). lia.
Qed.

(** [TrimSpace] changes a name that starts or ends with white space. *)
Lemma TrimSpace_padded name : padded name -> TrimSpace name <> name.
Proof.
  intros (ws & rest & Hws & Hname) Heq.
  apply (f_equal list_ascii_of_string) in Heq. unfold TrimSpace in Heq.
  rewrite list_ascii_of_string_of_list_ascii in Heq.
  apply (f_equal (@length ascii)) in Heq.
  pose proof (trimRight_le (trimLeft (list_ascii_of_string name))) as H1.
  destruct Hname as [Hname|Hname].
  - pose proof (trimLeft_leading ws rest Hws) as H2. rewrite <- Hname in H2. lia.
  - destruct (trimLeft_shorter _ (list_ascii_of_string name) (le_n _)) as [Hid|Hlt];
      [|lia].
    rewrite Hid in Heq.
    pose proof (trimRight_trailing ws rest Hws) as H2. rewrite <- Hname in H2. lia.
Qed.

(** [filepath.Clean] and [filepath.Join] on the examples of their
    documentation and on the paths of the cache. *)
Example Clean_1 : filepath_Clean "a//b" = "a/b"%string.
Proof. reflexivity. Qed.
Example Clean_2 : filepath_Clean "a/./b/../c/" = "a/c"%string.
Proof. reflexivity. Qed.
Example Clean_3 : filepath_Clean "../a/../../b" = "../../b"%string.
Proof. reflexivity. Qed.
Example Clean_4 : filepath_Clean "/../a" = "/a"%string.
Proof. reflexivity. Qed.
Example Clean_5 : filepath_Clean "a/.." = "."%string.
Proof. reflexivity. Qed.
Example Clean_6 : filepath_Clean "/" = "/"%string.
Proof. reflexivity. Qed.
Example Clean_7 : filepath_Clean EmptyString = "."%string.
Proof. reflexivity. Qed.
Example Clean_8 : filepath_Clean "a/../.." = ".."%string.
Proof. reflexivity. Qed.
Example Clean_9 : filepath_Clean "/a/b/../../.." = "/"%string.
Proof. reflexivity. Qed.
Example Join_1 :
  filepath_Join "testdata" "config_name.json" = "testdata/config_name.json"%string.
Proof. reflexivity. Qed.
Example Join_2 : filepath_Join "testdata" " x/../a.json" = "testdata/a.json"%string.
Proof. reflexivity. Qed.
Example Join_3 : filepath_Join "testdata/" ".json" = "testdata/.json"%string.
Proof. reflexivity. Qed.
Example Join_4 : filepath_Join EmptyString "a.json" = "a.json"%string.
Proof. reflexivity. Qed.
Example Join_5 : filepath_Join "a" EmptyString = "a"%string.
Proof. reflexivity. Qed.

Lemma list_ascii_of_string_app (a b : string) :
  list_ascii_of_string (a +:+ b) = list_ascii_of_string a ++ list_ascii_of_string b.
Proof. induction a as [|c a IH]; simpl; [done|]. by rewrite IH. Qed.

Lemma elements_not_nil s : elements s <> [].
Proof.
  destruct s as [|c s]; cbn [elements]; [done|].
  destruct (Ascii.eqb c Separator); [done|]. by destruct (elements s).
Qed.

Lemma elements_single e :
  existsb (Ascii.eqb Separator) e = false -> elements e = [e].
Proof.
  induction e as [|c e IH]; cbn [elements existsb]; [done|].
  intros H. apply orb_false_iff in H as [Hc He].
  rewrite Ascii.eqb_sym, Hc. by rewrite IH.
Qed.

Lemma elements_app a e :
  elements (a ++ Separator :: e) = elements a ++ elements e.
Proof.
  induction a as [|c a IH]; cbn [elements app]; [done|].
  destruct (Ascii.eqb c Separator); [by rewrite IH|].
  rewrite IH. pose proof (elements_not_nil a) as Hn.
  by destruct (elements a).
Qed.

Lemma join_elements_snoc l e :
  join_elements (l ++ [e]) = concat (map (fun x => x ++ [Separator]) l) ++ e.
Proof.
  induction l as [|x l IH]; simpl; [done|].
  rewrite IH. destruct (l ++ [e]) eqn:E.
  - by destruct l.
  - by rewrite <- !app_assoc.
Qed.

(** An element that [Clean] keeps: not empty, not [.], not [..]. *)
Lemma clean_element_kept rooted out e :
  e <> [] -> e <> dot -> e <> dotdot -> clean_element rooted out e = e :: out.
Proof.
  intros H1 H2 H3. unfold clean_element.
  by rewrite !decide_False.
Qed.

Lemma filepath_Clean_cons c s :
  filepath_Clean (String c s)
  = let body := join_elements
                  (rev (fold_left (clean_element (Ascii.eqb c Separator))
                          (elements (c :: list_ascii_of_string s)) [])) in
    if Ascii.eqb c Separator then string_of_list_ascii (Separator :: body)
    else match body with
         | [] => "."%string
         | _ => string_of_list_ascii body
         end.
Proof. reflexivity. Qed.

(** Joined to a directory, a single element that [Clean] keeps comes
    out as the last element of the path, after a prefix that is the
    directory's. *)
Lemma Join_single_element dir :
  exists prefix, forall elem,
    has_separator elem = false ->
    list_ascii_of_string elem <> [] ->
    list_ascii_of_string elem <> dot ->
    list_ascii_of_string elem <> dotdot ->
    filepath_Join dir elem
    = string_of_list_ascii (prefix ++ list_ascii_of_string elem).
Proof.
  destruct dir as [|c dir].
  - exists []. intros elem Hs H1 H2 H3. unfold filepath_Join.
    destruct elem as [|c elem]; [done|].
    rewrite filepath_Clean_cons. cbv zeta.
    change (c :: list_ascii_of_string elem) with (list_ascii_of_string (String c elem)).
    assert (Hc : Ascii.eqb c Separator = false).
    { unfold has_separator in Hs. cbn [list_ascii_of_string existsb] in Hs.
      apply orb_false_iff in Hs as [Hc _]. by rewrite Ascii.eqb_sym. }
    rewrite Hc, (elements_single _ Hs). cbn [fold_left].
    rewrite clean_element_kept by done. cbn [rev app join_elements].
    by destruct (list_ascii_of_string (String c elem)).
  - set (rooted := Ascii.eqb c Separator).
    set (out := fold_left (clean_element rooted)
                  (elements (c :: list_ascii_of_string dir)) []).
    set (pre := concat (map (fun x => x ++ [Separator]) (rev out))).
    exists (if rooted then Separator :: pre else pre).
    intros elem Hs H1 H2 H3. unfold filepath_Join.
    change (String c dir +:+ "/" +:+ elem) with (String c (dir +:+ "/" +:+ elem)).
    rewrite filepath_Clean_cons. cbv zeta. fold rooted.
    rewrite !list_ascii_of_string_app.
    change (list_ascii_of_string "/") with [Separator].
    change (c :: list_ascii_of_string dir ++ [Separator] ++ list_ascii_of_string elem)
      with ((c :: list_ascii_of_string dir) ++ Separator :: list_ascii_of_string elem).
    rewrite elements_app, (elements_single _ Hs), fold_left_app. fold out.
    cbn [fold_left]. rewrite clean_element_kept by done. cbn [rev].
    rewrite join_elements_snoc. fold pre.
    destruct rooted; [done|].
    destruct (pre ++ list_ascii_of_string elem) eqn:E; [|done].
    apply app_eq_nil in E as [_ E]. done.
Qed.

Lemma string_of_list_ascii_inj (a b : list ascii) :
  string_of_list_ascii a = string_of_list_ascii b -> a = b.
Proof.
  intros H. apply (f_equal list_ascii_of_string) in H.
  by rewrite !list_ascii_of_string_of_list_ascii in H.
Qed.

Lemma Sprintf_json_kept name :
  list_ascii_of_string (Sprintf_json name) <> []
  /\ list_ascii_of_string (Sprintf_json name) <> dot
  /\ list_ascii_of_string (Sprintf_json name) <> dotdot.
Proof.
  unfold Sprintf_json. rewrite list_ascii_of_string_app.
  split_and!; intros H; apply (f_equal (@length ascii)) in H;
    rewrite length_app in H; simpl in H; lia.
Qed.

Lemma Sprintf_json_separator name :
  has_separator (Sprintf_json name) = has_separator name.
Proof.
  unfold has_separator, Sprintf_json. rewrite list_ascii_of_string_app, existsb_app.
  simpl. by rewrite orb_false_r.
Qed.

(** Different names without a separator have different files, in the
    same directory. *)
Lemma path_inj dir a b :
  has_separator a = false -> has_separator b = false ->
  filepath_Join dir (Sprintf_json a) = filepath_Join dir (Sprintf_json b) -> a = b.
Proof.
  intros Ha Hb H. destruct (Join_single_element dir) as [prefix Hj].
  destruct (Sprintf_json_kept a) as (A1 & A2 & A3).
  destruct (Sprintf_json_kept b) as (B1 & B2 & B3).
  rewrite !Hj in H by (by rewrite ?Sprintf_json_separator).
  apply string_of_list_ascii_inj, app_inv_head in H.
  unfold Sprintf_json in H. rewrite !list_ascii_of_string_app in H.
  apply app_inv_tail in H. apply (f_equal string_of_list_ascii) in H.
  by rewrite !string_of_list_ascii_of_string in H.
Qed.

Lemma trimLeft_suffix n : forall s c,
  (length s <= n)%nat -> In c (trimLeft s) -> In c s.
Proof.
  induction n as [|n IH]; intros s c Hn.
  - destruct s; [done|simpl in Hn; lia].
  - destruct s as [|c1 s1]; [done|]. simpl in Hn. simpl trimLeft.
    destruct (asciiSpace c1).
    { intros H. right. apply IH; [lia | done]. }
    destruct s1 as [|c2 s2]; [done|]. simpl in Hn.
    destruct (space2 c1 c2).
    { intros H. right. right. apply IH; [lia | done]. }
    destruct s2 as [|c3 s3]; [done|]. simpl in Hn.
    destruct (space3 c1 c2 c3); [|done].
    intros H. right. right. right. apply IH; [lia | done].
Qed.

Lemma trimLeftRev_suffix n : forall s c,
  (length s <= n)%nat -> In c (trimLeftRev s) -> In c s.
Proof.
  induction n as [|n IH]; intros s c Hn.
  - destruct s; [done|simpl in Hn; lia].
  - destruct s as [|c1 s1]; [done|]. simpl in Hn. simpl trimLeftRev.
    destruct (asciiSpace c1).
    { intros H. right. apply IH; [lia | done]. }
    destruct s1 as [|c2 s2]; [done|]. simpl in Hn.
    destruct (space2 c2 c1).
    { intros H. right. right. apply IH; [lia | done]. }
    destruct s2 as [|c3 s3]; [done|]. simpl in Hn.
    destruct (space3 c3 c2 c1); [|done].
    intros H. right. right. right. apply IH; [lia | done].
Qed.

(** Trimming adds no separator. *)
Lemma TrimSpace_separator name :
  has_separator name = false -> has_separator (TrimSpace name) = false.
Proof.
  unfold has_separator, TrimSpace. rewrite list_ascii_of_string_of_list_ascii.
  intros H. apply not_true_is_false. intros Ht.
  apply existsb_exists in Ht as (c & Hin & Hc).
  assert (Hin' : In c (list_ascii_of_string name)).
  { unfold trimRight in Hin. apply in_rev in Hin.
    apply (trimLeftRev_suffix _ _ _ (le_n _)) in Hin. apply in_rev in Hin.
    by apply (trimLeft_suffix _ _ _ (le_n _)) in Hin. }
  assert (Ht : existsb (Ascii.eqb Separator) (list_ascii_of_string name) = true).
  { apply existsb_exists. by exists c. }
  congruence.
Qed.

End Names.

Section NameAsymmetry.
Context {GoType : Type} `{!EqDecision GoType} {JVal : Type}.
Implicit Types (w : @World GoType JVal) (cv : @configValue GoType).

(** The file-system calls of a [get] for [name] are on [getPath]. *)
Lemma verboseGet_trace ctx w name res w' :
  verboseGet ctx name w = Done res w' ->
  exists t, trace w' = trace w ++ t
            /\ Forall (fun ev => ev = EvStat (getPath w name)
                                 \/ ev = EvReadFile (getPath w name)) t.
Proof.
  unfold verboseGet. simpl. intros H.
  destruct (verboseGet_shared ctx name w) as [r1 w1| | |] eqn:H1; try done.
  pose proof (verboseGet_shared_trace _ _ _ _ _ H1) as [_ Ht1].
  pose proof (verboseGet_shared_inv _ _ _ _ _ H1) as (_ & _ & Hr1).
  destruct r1 as [res1|[path modTime]]; simpl in *.
  - injection H as <- <-. destruct Ht1 as [->| ->].
    + exists []. by rewrite app_nil_r.
    + eexists [_]. split; [done|]. auto.
  - subst path.
    pose proof (verboseGet_exclusive_trace _ _ _ _ _ _ _ H) as [_ Ht2].
    destruct Ht1 as [Ht1|Ht1], Ht2 as [Ht2|Ht2]; rewrite Ht2, Ht1.
    + exists []. by rewrite app_nil_r.
    + eexists [_]. split; [done|]. auto.
    + eexists [_]. split; [done|]. auto.
    + eexists [_; _]. rewrite <- app_assoc. split; [done|]. auto.
Qed.

Lemma Cache_Get_trace w name r w' :
  Cache_Get name w = Done r w' ->
  exists t, trace w' = trace w ++ t
            /\ Forall (fun ev => ev = EvStat (getPath w name)
                                 \/ ev = EvReadFile (getPath w name)) t.
Proof.
  unfold Cache_Get, Cache_GetContext. simpl. intros H.
  destruct (verboseGet Background name w) as [[[cfg u] err] w1| | |] eqn:H1; try done.
  apply verboseGet_trace in H1.
  assert (w' = w1) as ->; [|done].
  destruct err as [e|]; simpl in H; [by injection H|].
  destruct cfg as [p|]; simpl in H; [|by injection H].
  destruct (objs w1 !! p); simpl in H; [by injection H|done].
Qed.

(** [update] returns, leaves the cache alone and makes one call, a
    write to [updatePath]. *)
Lemma Cache_Update_trace w name data :
  lock (cache w) = unlockedMutex ->
  exists err w',
    Cache_Update name data w = Done err w'
    /\ cache w' = cache w
    /\ trace w' = trace w ++ [EvWriteFile (updatePath w name) data].
Proof.
  intros Hl.
  destruct w as [[dir l m tmo] o d fs c tr]; unfold updatePath; simpl in *; subst.
  unfold Cache_Update, Cache_UpdateContext. simpl.
  destruct (fs !! filepath_Join dir (Sprintf_json name)) as [f|]; simpl;
    [destruct (Writable f); simpl|]; by eexists _, _.
Qed.

(** The first [get] of a name whose file can be read loads the file. *)
Lemma cold_get w name f :
  lock (cache w) = unlockedMutex ->
  configs (cache w) !! name = None ->
  files w !! getPath w name = Some f ->
  Readable f = true ->
  zeroTime < ModTime f ->
  Cache_Get name w
  = Done (Some (Data f), None)
         (reloaded (log (EvStat (getPath w name)) w) name (getPath w name) (Data f)).
Proof.
  intros Hl Hm Hf Hr Ht.
  destruct w as [[dir l m tmo] o d fs c tr];
    unfold getPath, reloaded, unlockedMutex in *; simpl in *; subst.
  assert (Ha : time_After (ModTime f) zeroTime = true)
    by (unfold time_After; apply Z.ltb_lt; lia).
  unfold Cache_Get, Cache_GetContext, verboseGet, verboseGet_shared, verboseGet_exclusive.
  run. rewrite lookup_app_r by lia. rewrite Nat.sub_diag. simpl. done.
Qed.

(** C10, as the code behaves.  For a name that starts or ends with
    white space and has no separator in it, [update] writes
    [<directory>/<name>.json], every file-system call of a [get] for the
    same name is on [<directory>/<TrimSpace(name)>.json], and these are
    two files.  The mapping is keyed by the name as given: the first
    [get]s of two names with the same trimmed form read the same file
    and leave two Entries, one under each name. *)
Theorem name_trimming_asymmetry w name data :
  lock (cache w) = unlockedMutex ->
  padded name ->
  has_separator name = false ->
  getPath w name <> updatePath w name
  /\ (exists err w1,
        Cache_Update name data w = Done err w1
        /\ trace w1 = trace w ++ [EvWriteFile (updatePath w name) data]
        /\ forall r w2, Cache_Get name w1 = Done r w2 ->
             exists t, trace w2 = trace w1 ++ t
                       /\ Forall (fun ev => ev = EvStat (getPath w name)
                                            \/ ev = EvReadFile (getPath w name)) t)
  /\ (forall name2 f,
        name2 <> name -> TrimSpace name2 = TrimSpace name ->
        configs (cache w) !! name = None -> configs (cache w) !! name2 = None ->
        files w !! getPath w name = Some f -> Readable f = true ->
        zeroTime < ModTime f ->
        exists w1 w2 e1 e2,
          Cache_Get name w = Done (Some (Data f), None) w1
          /\ Cache_Get name2 w1 = Done (Some (Data f), None) w2
          /\ trace w2 = trace w ++ [EvStat (getPath w name); EvReadFile (getPath w name);
                                    EvStat (getPath w name); EvReadFile (getPath w name)]
          /\ configs (cache w2) !! name = Some e1
          /\ configs (cache w2) !! name2 = Some e2
          /\ e1 <> e2
          /\ (exists cv1, objs w2 !! e1 = Some cv1 /\ Raw cv1 = Data f)
          /\ (exists cv2, objs w2 !! e2 = Some cv2 /\ Raw cv2 = Data f)).
Proof.
  intros Hl Hpad Hsep. split; [|split].
  - unfold getPath, updatePath. intros H.
    apply path_inj in H; [|by apply TrimSpace_separator | done].
    by apply TrimSpace_padded in Hpad.
  - destruct (Cache_Update_trace w name data Hl) as (err & w1 & Hupd & Hca & Htr).
    exists err, w1. split; [done|]. split; [done|].
    intros r w2 Hget. apply Cache_Get_trace in Hget.
    unfold getPath in *. by rewrite Hca in Hget.
  - intros name2 f Hne Htrim Hm1 Hm2 Hf Hr Ht.
    pose proof (cold_get w name f Hl Hm1 Hf Hr Ht) as Hget1.
    set (p := getPath w name) in *.
    set (w1 := reloaded (log (EvStat p) w) name p (Data f)) in *.
    assert (Hp2 : getPath w1 name2 = p).
    { unfold p, getPath, w1. rewrite Htrim.
      by destruct w as [[] ? ? ? ? ?]. }
    assert (Hget2 : Cache_Get name2 w1
                    = Done (Some (Data f), None)
                           (reloaded (log (EvStat p) w1) name2 p (Data f))).
    { rewrite <- Hp2. apply cold_get.
      - unfold w1. by destruct w as [[] ? ? ? ? ?].
      - unfold w1. destruct w as [[] ? ? ? ? ?]; simpl in *.
        by rewrite lookup_insert_ne.
      - rewrite Hp2. unfold w1. by destruct w as [[] ? ? ? ? ?].
      - done.
      - done. }
    exists w1, (reloaded (log (EvStat p) w1) name2 p (Data f)),
           (length (objs w)), (S (length (objs w))).
    split; [done|]. split; [done|].
    clear Hget1 Hget2 Hp2. subst w1 p. unfold reloaded, getPath.
    destruct w as [[dir l m tmo] o d fs c tr]; simpl in *.
    split; [by rewrite <- !app_assoc|].
    split; [by rewrite lookup_insert_ne, lookup_insert_eq|].
    split; [by rewrite lookup_insert_eq, length_app, Nat.add_comm|].
    split; [lia|]. split.
    + eexists. split; [|shelve].
      rewrite lookup_app_l by (rewrite length_app; simpl; lia).
      rewrite lookup_app_r by lia. by rewrite Nat.sub_diag.
    + eexists. split; [|shelve].
      rewrite lookup_app_r by (rewrite length_app; simpl; lia).
      rewrite length_app. simpl.
      by replace (S (length o) - (length o + 1))%nat with 0%nat by lia.
    Unshelve. all: reflexivity.
Qed.

End NameAsymmetry.

(** ** Freshness over time *)

Section Monotonicity.
Context {GoType : Type} `{!EqDecision GoType} {JVal : Type}.
Implicit Types (w : @World GoType JVal) (cv : @configValue GoType)
         (s : @System GoType JVal).

Lemma nondecreasing_snoc (l : list observation) i name t :
  nondecreasing l ->
  (forall k i' t', l !! k = Some (i', name, t') -> t' <= t) ->
  nondecreasing (l ++ [(i, name, t)]).
Proof.
  intros Hl Hb j k i1 i2 n t1 t2 Hjk Hj Hk.
  apply lookup_snoc_Some in Hj as [[Hjl Hj]|[Hjl Hj]];
    apply lookup_snoc_Some in Hk as [[Hkl Hk]|[Hkl Hk]].
  - exact (Hl j k i1 i2 n t1 t2 Hjk Hj Hk).
  - injection Hk as <- <- <-. exact (Hb _ _ _ Hj).
  - lia.
  - injection Hj as <- <- <-. injection Hk as <- <-. lia.
Qed.

Lemma observe_inv w i name res :
  observe w i name res = []
  \/ exists p u cv, res = (Some p, u, None) /\ objs w !! p = Some cv
                    /\ observe w i name res = [(i, name, LastUpdate cv)].
Proof.
  unfold observe. destruct res as [[[p|] u] [e|]]; auto.
  destruct (objs w !! p) as [cv|] eqn:Ho; auto.
  right. by exists p, u, cv.
Qed.

(** Returning the Entry the mapping holds keeps the invariant. *)
Lemma invariant_observe_current s w' gs i name res :
  invariant s ->
  same_memory (world s) w' -> clock w' = clock (world s) ->
  (forall p u, res = (Some p, u, None) -> configs (cache (world s)) !! name = Some p) ->
  invariant (mkSystem w' gs (observed s ++ observe w' i name res)).
Proof.
  intros (Ht & Hb & Hn) (Hca & Ho & _) Hc Hres.
  assert (Ht' : timely w').
  { intros n p Hp. rewrite Hca in Hp. rewrite Ho, Hc. exact (Ht _ _ Hp). }
  assert (Hb' : forall k i0 n t, observed s !! k = Some (i0, n, t) ->
            exists p cv, configs (cache w') !! n = Some p
                         /\ objs w' !! p = Some cv /\ t <= LastUpdate cv).
  { intros k i0 n t Hk. rewrite Hca, Ho. exact (Hb _ _ _ _ Hk). }
  destruct (observe_inv w' i name res) as [->|(p & u & cv & -> & Hcv & ->)].
  - rewrite app_nil_r. done.
  - specialize (Hres _ _ eq_refl).
    split; [done|]. split.
    + intros k i0 n t Hk. simpl in *.
      apply lookup_snoc_Some in Hk as [[_ Hk]|[_ Hk]]; [exact (Hb' _ _ _ _ Hk)|].
      injection Hk as <- <- <-. exists p, cv. rewrite Hca. split_and!; [done..|lia].
    + apply nondecreasing_snoc; [done|].
      intros k i' t' Hk. destruct (Hb' _ _ _ _ Hk) as (p' & cv' & Hp' & Hcv' & Hle).
      rewrite Hca, Hres in Hp'. injection Hp' as <-.
      rewrite Hcv in Hcv'. injection Hcv' as <-. done.
Qed.

(** Installing a freshly loaded Entry keeps the invariant. *)
Lemma invariant_reload s gs i name path data u :
  invariant s ->
  let w' := reloaded (world s) name path data in
  invariant (mkSystem w' gs
    (observed s ++ observe w' i name (Some (length (objs (world s))), u, None))).
Proof.
  intros (Ht & Hb & Hn) w'.
  destruct (reloaded_lookup (world s) name path data) as [Hm' Ho'].
  fold w' in Hm', Ho'.
  assert (Hcl : clock w' = clock (world s)) by (by destruct (world s) as [[] ? ? ? ? ?]).
  assert (Hcfg : configs (cache w')
                 = <[name := length (objs (world s))]> (configs (cache (world s))))
    by (by destruct (world s) as [[] ? ? ? ? ?]).
  assert (Hobj : objs w' = objs (world s) ++ [mkConfigValue (clock (world s)) None data])
    by (by destruct (world s) as [[] ? ? ? ? ?]).
  assert (Hold : forall n p cv, n <> name ->
            configs (cache (world s)) !! n = Some p -> objs (world s) !! p = Some cv ->
            configs (cache w') !! n = Some p /\ objs w' !! p = Some cv).
  { intros n p cv Hne Hp Hcv. rewrite Hcfg, Hobj.
    rewrite lookup_insert_ne by done. split; [done|].
    rewrite lookup_app_l; [done|]. by eapply lookup_lt_Some. }
  assert (Ht' : timely w').
  { intros n p Hp. destruct (decide (n = name)) as [->|Hne].
    - rewrite Hm' in Hp. injection Hp as <-. eexists. split; [exact Ho'|].
      simpl. lia.
    - rewrite Hcfg, lookup_insert_ne in Hp by done.
      destruct (Ht _ _ Hp) as (cv & Hcv & Hle). exists cv.
      rewrite Hcl. split; [|done]. exact (proj2 (Hold _ _ _ Hne Hp Hcv)). }
  assert (Hb' : forall k i0 n t, observed s !! k = Some (i0, n, t) ->
            exists p cv, configs (cache w') !! n = Some p
                         /\ objs w' !! p = Some cv /\ t <= LastUpdate cv).
  { intros k i0 n t Hk. destruct (Hb _ _ _ _ Hk) as (p & cv & Hp & Hcv & Hle).
    destruct (decide (n = name)) as [->|Hne].
    - eexists _, _. split; [exact Hm'|]. split; [exact Ho'|]. simpl.
      destruct (Ht _ _ Hp) as (cv2 & Hcv2 & Hle2).
      rewrite Hcv in Hcv2. injection Hcv2 as <-. lia.
    - exists p, cv. destruct (Hold _ _ _ Hne Hp Hcv). done. }
  unfold observe. rewrite Ho'. simpl.
  split; [done|]. split.
  - intros k i0 n t Hk. simpl in *.
    apply lookup_snoc_Some in Hk as [[_ Hk]|[_ Hk]]; [exact (Hb' _ _ _ _ Hk)|].
    injection Hk as <- <- <-. eexists _, _. split; [exact Hm'|].
    split; [exact Ho'|]. simpl. lia.
  - apply nondecreasing_snoc; [done|].
    intros k i' t' Hk. destruct (Hb' _ _ _ _ Hk) as (p' & cv' & Hp' & Hcv' & Hle).
    rewrite Hm' in Hp'. injection Hp' as <-.
    rewrite Ho' in Hcv'. injection Hcv' as <-. done.
Qed.

Lemma invariant_step s s' : invariant s -> step s s' -> invariant s'.
Proof.
  intros Hinv Hstep. destruct Hstep as [s w' Henv|s i ctx name r w' Hi Hrun
                                        |s i ctx name path modTime res w' Hi Hrun].
  - destruct Hinv as (Ht & Hb & Hn). destruct Henv as (Hca & Hcl & _ & Hobjs).
    split; [|split; [|done]].
    + intros n p Hp. simpl in *. rewrite Hca in Hp.
      destruct (Ht _ _ Hp) as (cv & Hcv & Hle).
      destruct (Hobjs _ _ Hcv) as (cv' & Hcv' & Hlu & _).
      exists cv'. split; [done|]. lia.
    + intros k i n t Hk. simpl in *.
      destruct (Hb _ _ _ _ Hk) as (p & cv & Hp & Hcv & Hle).
      destruct (Hobjs _ _ Hcv) as (cv' & Hcv' & Hlu & _).
      exists p, cv'. rewrite Hca. split_and!; [done..|lia].
  - apply verboseGet_shared_inv in Hrun as (Hmem & Hcl & Hr).
    destruct r as [[[cfg u] err]|[path modTime]]; simpl.
    + refine (invariant_observe_current s w' _ i name _ Hinv Hmem Hcl _).
      intros p u' [= -> -> ->]. destruct Hr as [_ Hr]. done.
    + destruct Hinv as (Ht & Hb & Hn). destruct Hmem as (Hca & Ho & _).
      split; [|split; [|done]].
      * intros n p Hp. simpl in *. rewrite Hca in Hp. rewrite Ho, Hcl. exact (Ht _ _ Hp).
      * intros k i0 n t Hk. simpl in *. rewrite Hca, Ho. exact (Hb _ _ _ _ Hk).
  - destruct res as [[cfg u] err].
    apply verboseGet_exclusive_inv in Hrun as (Hcl & Hr).
    destruct u.
    + destruct Hr as (-> & -> & data & ->).
      exact (invariant_reload s _ i name path data true Hinv).
    + destruct Hr as (Hmem & Hr).
      refine (invariant_observe_current s w' _ i name _ Hinv Hmem Hcl _).
      intros p u' [= -> <- ->]. by destruct Hr as [<- _].
Qed.

Lemma invariant_rtc s s' : invariant s -> rtc step s s' -> invariant s'.
Proof.
  intros Hinv Hrun. induction Hrun as [|s1 s2 s3 Hstep _ IH]; [done|].
  apply IH. by eapply invariant_step.
Qed.

(** C8. Start with nothing observed, in a world where no Entry was
    loaded in the future.  Whatever the goroutines and the rest of the
    world do afterwards (any number of callers, any interleaving of the
    locked sections of [verboseGet], time passing, files changing in
    any way, so also with modification times that never decrease), of
    two Entries returned for one name the later one never has the
    smaller [LastUpdate].  The observations of one caller are among
    those of all callers. *)
Theorem freshness_monotone s s' :
  observed s = [] ->
  timely (world s) ->
  rtc step s s' ->
  nondecreasing (observed s').
Proof.
  intros Hobs Ht Hrun.
  assert (Hinv : invariant s).
  { split; [done|]. split.
    - intros k i n t Hk. by rewrite Hobs in Hk.
    - intros j k i1 i2 n t1 t2 _ Hj. by rewrite Hobs in Hj. }
  by destruct (invariant_rtc s s' Hinv Hrun) as (_ & _ & Hn).
Qed.

End Monotonicity.

(** ** Decoding once *)

Section Decoding.
Context {GoType : Type} `{!EqDecision GoType} {JVal : Type}.
Variable json_Unmarshal : GoType -> bytes -> JVal + string.
Implicit Types (w : @World GoType JVal) (cv : @configValue GoType)
         (P : @Pool GoType JVal).

(** On a fresh Entry the first section of [verboseGet] returns the
    Entry and changes nothing. *)
Lemma verboseGet_shared_fresh w name r w' :
  fresh w name = true ->
  verboseGet_shared Background name w = Done r w' ->
  r = inl (configs (cache w) !! name, false, None) /\ w' = w.
Proof.
  destruct w as [[dir [r0 wr] m tmo] o d fs c tr].
  unfold fresh, entry, verboseGet_shared. simpl. intros Hf H.
  destruct wr; [done|]. simpl in H.
  destruct (m !! name) as [p|] eqn:Hm; [|done]. simpl in H.
  destruct (o !! p) as [cv|] eqn:Ho; [|done]. simpl in H.
  rewrite Hf in H. simpl in H. by injection H as <- <-.
Qed.

Lemma verboseGet_shared_fresh_run w name :
  writer (lock (cache w)) = false ->
  fresh w name = true ->
  verboseGet_shared Background name w
  = Done (inl (configs (cache w) !! name, false, None)) w.
Proof.
  destruct w as [[dir [r0 wr] m tmo] o d fs c tr].
  unfold fresh, entry, verboseGet_shared. simpl. intros -> Hf. simpl.
  destruct (m !! name) as [p|] eqn:Hm; [|done]. simpl.
  destruct (o !! p) as [cv|] eqn:Ho; [|done]. simpl.
  rewrite Hf. simpl. done.
Qed.

Lemma fresh_decoded_into w T name e cv v :
  objs w !! e = Some cv ->
  fresh (decoded_into w T e cv v) name = fresh w name.
Proof.
  intros Ho. destruct w as [[dir l m tmo] o d fs c tr].
  unfold fresh, entry, decoded_into. simpl in *.
  destruct (m !! name) as [p|]; [|done].
  destruct (decide (p = e)) as [->|Hne].
  - rewrite list_lookup_insert_eq by (by eapply lookup_lt_Some). by rewrite Ho.
  - by rewrite list_lookup_insert_ne.
Qed.

Lemma unmarshals_one raw : unmarshals [EvUnmarshal raw] = 1%nat.
Proof. reflexivity. Qed.

Lemma on_entry_insert e (l : list accessor) i a :
  (forall j b, l !! j = Some b -> on_entry e b) ->
  on_entry e a ->
  forall j b, <[i := a]> l !! j = Some b -> on_entry e b.
Proof.
  intros Hl Ha j b Hj.
  apply list_lookup_insert_Some in Hj as [(_ & <- & _)|[_ Hj]]; [done|].
  exact (Hl _ _ Hj).
Qed.

Lemma finished_insert (l : list accessor) i a (Q : option ptr * option error -> Prop) :
  (forall j r, l !! j = Some (Finished r) -> Q r) ->
  (forall r, a = Finished r -> Q r) ->
  forall j r, <[i := a]> l !! j = Some (Finished r) -> Q r.
Proof.
  intros Hl Ha j r Hj.
  apply list_lookup_insert_Some in Hj as [(_ & Hj & _)|[_ Hj]]; [by apply Ha|].
  exact (Hl _ _ Hj).
Qed.

Lemma pool_invariant_step T name e raw v w0 P P' :
  json_Unmarshal T raw = inl v ->
  pool_invariant T name e raw w0 P ->
  pool_step json_Unmarshal T name P P' ->
  pool_invariant T name e raw w0 P'.
Proof.
  intros Hv (Hlock & Hmap & Hfresh & Hon & cv & t & Ho & Hraw & Htr & Hslot) Hstep.
  destruct Hstep as [P w' ((Hca & Hob & _) & Htr' & _ & Hfresh')
                    |P i r w' Hi Hrun
                    |P i path modTime res w' Hi Hrun
                    |P i cfg updated r w' Hi Hrun
                    |P i cfg updated r w' Hi Hrun];
    unfold pool_invariant; simpl.
  - rewrite Hca, Hob, Htr'. split_and!; [done..|]. by exists cv, t.
  - apply (verboseGet_shared_fresh _ _ _ _ Hfresh) in Hrun as [-> ->].
    rewrite Hmap. simpl.
    split_and!; [done..| |].
    + apply on_entry_insert; [done|]. right. by left.
    + exists cv, t. split_and!; [done..|].
      destruct (Value cv) as [[U p]|].
      * destruct Hslot as (? & ? & Hfin). split_and!; [done..|].
        apply finished_insert; [done|]. intros r [=].
      * destruct Hslot as (? & Hfin). split; [done|].
        apply (finished_insert _ _ _ (fun _ => False)); [done|]. intros r [=].
  - destruct (Hon _ _ Hi) as [?|[?|[?|[r ?]]]]; done.
  - destruct (Hon _ _ Hi) as [?|[[= -> ->]|[?|[r0 ?]]]]; try done.
    apply GetContext_cached_inv in Hrun as (-> & e' & cv' & [= <-] & Ho' & Hr).
    rewrite Ho in Ho'. injection Ho' as <-.
    split_and!; [done..| |].
    + apply on_entry_insert; [done|].
      destruct r; [right; right; right; by eexists|right; right; by left].
    + exists cv, t. split_and!; [done..|].
      destruct r as [p|].
      * destruct Hr as [_ Hval]. rewrite Hval in *. destruct Hslot as (_ & Hn & Hfin).
        split_and!; [done..|]. apply finished_insert; [done|]. by intros r [= <-].
      * destruct Hr as [?|Hval]; [done|]. rewrite Hval in *.
        destruct Hslot as [Hn Hfin]. split; [done|].
        apply (finished_insert _ _ _ (fun _ => False)); [done|]. intros r [=].
  - destruct (Hon _ _ Hi) as [?|[?|[[= -> ->]|[r0 ?]]]]; try done.
    destruct r as [r err].
    apply GetContext_decode_inv in Hrun as (Hl & e' & cv' & [= <-] & Ho' & Hr).
    rewrite Ho in Ho'. injection Ho' as <-.
    destruct Hr as [(_ & -> & -> & p & -> & Hval)|[[?|Hval] Hr]]; [|done|].
    + split_and!; [done..| |].
      * apply on_entry_insert; [done|]. right; right; right; by eexists.
      * exists cv, t. split_and!; [done..|].
        rewrite Hval in *. destruct Hslot as (_ & Hn & Hfin).
        split_and!; [done..|]. apply finished_insert; [done|]. by intros r [= <-].
    + rewrite Hraw, Hv in Hr. destruct Hr as (-> & -> & ->).
      rewrite Hval in Hslot. destruct Hslot as [-> Hfin].
      destruct (decoded_into_lookup (pool_world P) T e cv v Ho) as [Hca Hnew].
      rewrite Hca. rewrite (fresh_decoded_into _ _ _ _ _ _ Ho).
      split_and!; [done..| |].
      * apply on_entry_insert; [done|]. right; right; right; by eexists.
      * eexists _, [EvUnmarshal raw]. split; [exact Hnew|]. simpl.
        split; [done|]. split.
        { destruct (pool_world P) as [[] ? ? ? ? ?]; simpl in *.
          rewrite Htr, Hraw. by rewrite app_nil_r. }
        split; [done|]. split; [by right|].
        apply finished_insert; [|by intros r [= <-]].
        intros j r Hj. by destruct (Hfin _ _ Hj).
Qed.

Lemma pool_invariant_rtc T name e raw v w0 P P' :
  json_Unmarshal T raw = inl v ->
  pool_invariant T name e raw w0 P ->
  rtc (pool_step json_Unmarshal T name) P P' ->
  pool_invariant T name e raw w0 P'.
Proof.
  intros Hv Hinv Hrun. induction Hrun as [|P1 P2 P3 Hstep _ IH]; [done|].
  apply IH. by eapply pool_invariant_step.
Qed.

(** A call that has not returned can always take its next step when
    nobody else holds the lock. *)
Lemma pool_progress T name e raw v w0 P i a :
  json_Unmarshal T raw = inl v ->
  lock (cache w0) = unlockedMutex ->
  pool_invariant T name e raw w0 P ->
  accessors P !! i = Some a ->
  (forall r, a <> Finished r) ->
  exists P', pool_step json_Unmarshal T name P P' /\ accessors P' !! i <> Some a.
Proof.
  intros Hv Hl0 (Hlock & Hmap & Hfresh & Hon & cv & t & Ho & Hraw & Htr & Hslot) Hi Hnf.
  assert (Hlt : (i < length (accessors P))%nat) by (by eapply lookup_lt_Some).
  rewrite Hl0 in Hlock.
  destruct (Hon _ _ Hi) as [->|[->|[->|[r ->]]]]; [| | |by destruct (Hnf r)].
  - eexists. split.
    + eapply pool_shared; [exact Hi|].
      apply verboseGet_shared_fresh_run; [by rewrite Hlock|done].
    + simpl. rewrite list_lookup_insert_eq by done. rewrite Hmap. done.
  - assert (Hrun : exists r, GetContext_cached T (Some e) false (pool_world P)
                             = Done r (pool_world P)
                             /\ (r = None \/ exists p, r = Some p)).
    { unfold GetContext_cached. simpl. rewrite Ho. simpl.
      destruct (Value cv) as [[U p]|]; simpl.
      - destruct Hslot as (-> & _). destruct (decide (T = T)); [|done].
        simpl. eauto.
      - eauto. }
    destruct Hrun as (r & Hrun & Hr).
    eexists. split; [eapply pool_cached; [exact Hi|exact Hrun]|]. simpl.
    rewrite list_lookup_insert_eq by done.
    destruct Hr as [->|[p ->]]; done.
  - assert (Hrun : exists r w', GetContext_decode json_Unmarshal T Background (Some e) false
                                  (pool_world P) = Done r w').
    { destruct (pool_world P) as [[dir [rd wr] m tmo] o d fs c tr]; simpl in *.
      unfold unlockedMutex in Hlock. injection Hlock as -> ->.
      unfold GetContext_decode. simpl. rewrite Ho. simpl.
      destruct (Value cv) as [[U p]|]; simpl.
      - destruct Hslot as (-> & _). destruct (decide (T = T)); [|done].
        simpl. eauto.
      - rewrite Hraw, Hv. simpl. rewrite Ho. simpl. eauto. }
    destruct Hrun as (r & w' & Hrun).
    eexists. split; [eapply pool_decode; [exact Hi|exact Hrun]|]. simpl.
    rewrite list_lookup_insert_eq by done. done.
Qed.

(** The call that has just reloaded the Entry ([updated] true) does not
    look at the slot: it unmarshals again and overwrites it. *)
Lemma reloader_decodes_again T e cv v p w :
  lock (cache w) = unlockedMutex ->
  objs w !! e = Some cv ->
  Value cv = Some (T, p) ->
  json_Unmarshal T (Raw cv) = inl v ->
  GetContext_decode json_Unmarshal T Background (Some e) true w
  = Done (Some (length (decoded w)), None) (decoded_into w T e cv v).
Proof.
  intros Hl Ho Hval Hv.
  destruct w as [[dir l m tmo] o d fs c tr];
    unfold decoded_into, unlockedMutex in *; simpl in *; subst.
  unfold GetContext_decode. simpl. rewrite Ho. simpl. rewrite Hval. simpl.
  rewrite Hv. simpl. rewrite Ho. simpl. done.
Qed.


End Decoding.

(** ** The properties on the test data *)

Lemma warm_no_dangling now slot fs : no_dangling (warm now slot fs).
Proof.
  intros name p H. simpl in H. apply lookup_singleton_Some in H as [_ <-].
  by eexists.
Qed.

Lemma cold_timely : timely cold.
Proof. intros name p H. simpl in H. by rewrite lookup_empty in H. Qed.

Lemma cold_no_dangling : no_dangling cold.
Proof. intros name p H. simpl in H. by rewrite lookup_empty in H. Qed.

Lemma fresh_entry_served_without_io_witness :
  verboseGet Background "config_name" (warm 200 None testdata)
  = Done (Some 0%nat, false, None) (warm 200 None testdata)
  /\ Cache_Get "config_name" (warm 200 None testdata)
     = Done (Some document, None) (warm 200 None testdata).
Proof.
  apply (fresh_entry_served_without_io (warm 200 None testdata) "config_name" 0
           (mkConfigValue 100 None document));
    [reflexivity | reflexivity | reflexivity | vm_compute; reflexivity].
Defined.

Lemma unmodified_file_stat_only_witness :
  let w := warm (100 + 2 * Minute) None testdata in
  let w' := log (EvStat (getPath w "config_name")) w in
  verboseGet Background "config_name" w = Done (Some 0%nat, false, None) w'
  /\ Cache_Get "config_name" w = Done (Some document, None) w'
  /\ entry w' "config_name" = Some (mkConfigValue 100 None document).
Proof.
  apply (unmodified_file_stat_only (warm (100 + 2 * Minute) None testdata) "config_name" 0
           (mkConfigValue 100 None document) config_name_json);
    [reflexivity | reflexivity | reflexivity | vm_compute; discriminate
    | reflexivity | vm_compute; discriminate].
Defined.

Lemma stat_error_not_masked_witness :
  let w := warm (100 + 2 * Minute) None ∅ in
  let err := PathError "stat" (getPath w "config_name") ENOENT in
  let w' := log (EvStat (getPath w "config_name")) w in
  verboseGet Background "config_name" w = Done (None, false, Some err) w'
  /\ Cache_Get "config_name" w = Done (None, Some err) w'.
Proof.
  apply (stat_error_not_masked (warm (100 + 2 * Minute) None ∅) "config_name");
    [reflexivity | apply warm_no_dangling | reflexivity | reflexivity].
Defined.

Lemma exclusive_recheck_then_reload_witness :
  let w := warm 200 None testdata in
  let path := "testdata/config_name.json"%string in
  verboseGet_exclusive Background "config_name" path 50 w
  = Done (Some 0%nat, false, None) w
  /\ verboseGet_exclusive Background "config_name" path 150 w
     = Done (Some 1%nat, true, None) (reloaded w "config_name" path document).
Proof.
  destruct (exclusive_recheck_then_reload (warm 200 None testdata) "config_name"
              "testdata/config_name.json" 50 eq_refl (warm_no_dangling _ _ _))
    as [Hkeep _].
  destruct (exclusive_recheck_then_reload (warm 200 None testdata) "config_name"
              "testdata/config_name.json" 150 eq_refl (warm_no_dangling _ _ _))
    as [_ Hload].
  split.
  - apply (Hkeep 0%nat (mkConfigValue 100 None document));
      [reflexivity | reflexivity | vm_compute; discriminate].
  - apply (Hload config_name_json); [vm_compute; reflexivity | reflexivity | reflexivity].
Defined.

Lemma get_read_error_fatal_witness :
  Cache_Get "config_name" (mkWorld (NewCache "testdata") [] [] unreadable 100 [])
  = @Fatal TestType bytes _ RUnlockOfUnlocked.
Proof.
  apply (get_read_error_fatal (mkWorld (NewCache "testdata") [] [] unreadable 100 [])
           "config_name" (mkFile 5 document false true));
    [reflexivity | by intros name p H; simpl in H; rewrite lookup_empty in H
    | reflexivity | reflexivity | vm_compute; reflexivity | reflexivity].
Defined.

Lemma update_writes_file_only_witness :
  exists err w',
    Cache_Update "config_name" document cold = Done err w'
    /\ cache w' = cache cold /\ objs w' = objs cold /\ decoded w' = decoded cold
    /\ trace w' = trace cold ++ [EvWriteFile (updatePath cold "config_name") document]
    /\ match err with
       | None =>
         (exists f, files w' !! updatePath cold "config_name" = Some f /\ Data f = document)
         /\ (forall q, q <> updatePath cold "config_name" -> files w' !! q = files cold !! q)
       | Some e =>
         e = PathError "open" (updatePath cold "config_name") EACCES
         /\ files w' = files cold
       end.
Proof. apply (update_writes_file_only cold "config_name" document); reflexivity. Defined.

(** C1, as stated, fails on the test data: after a successful
    [Get[ConfigNameT]], [Get[map[string]string]] for the same name, with
    no reload in between, panics; it does not return an error. *)
Lemma mismatched_type_is_not_an_error :
  Get test_Unmarshal ConfigNameT "config_name" cold = Done (Some 0%nat, None) loaded
  /\ Get test_Unmarshal MapStringString "config_name" loaded
     = Panicked (InterfaceConversion ConfigNameT MapStringString) loaded
  /\ ~ exists e w', Get test_Unmarshal MapStringString "config_name" loaded
                    = Done (None, Some e) w'.
Proof.
  split; [vm_compute; reflexivity|].
  assert (H : Get test_Unmarshal MapStringString "config_name" loaded
              = Panicked (InterfaceConversion ConfigNameT MapStringString) loaded)
    by (vm_compute; reflexivity).
  split; [exact H|]. intros (e & w' & H'). rewrite H in H'. discriminate H'.
Qed.

Lemma mismatched_type_panics_witness :
  Get test_Unmarshal MapStringString "config_name" loaded
  = Panicked (InterfaceConversion ConfigNameT MapStringString) loaded.
Proof.
  refine (mismatched_type_panics test_Unmarshal ConfigNameT MapStringString
            "config_name" cold 0%nat None loaded _ _ loaded (Some 0%nat) loaded _ _).
  - discriminate.
  - vm_compute; reflexivity.
  - exact (conj eq_refl (conj eq_refl eq_refl)).
  - vm_compute; reflexivity.
Defined.

Lemma name_trimming_asymmetry_witness :
  getPath cold " config_name" <> updatePath cold " config_name".
Proof.
  assert (Hpad : padded " config_name").
  { exists [" "%char], (list_ascii_of_string "config_name").
    split; [reflexivity|left; reflexivity]. }
  exact (proj1 (name_trimming_asymmetry cold " config_name" document eq_refl Hpad
                 eq_refl)).
Defined.

(** C10, as stated, fails for a padded name with a separator in it:
    [filepath.Join] cleans the path, and the [..] takes the padded
    element away.  The update and the get of [" x/../a"] are on the one
    file [testdata/a.json], and the get returns what the update wrote. *)
Lemma padded_name_on_the_same_file :
  padded " x/../a"
  /\ getPath cold " x/../a" = "testdata/a.json"%string
  /\ updatePath cold " x/../a" = "testdata/a.json"%string
  /\ (exists w1 w2,
        Cache_Update " x/../a" document cold = Done None w1
        /\ trace w1 = [EvWriteFile "testdata/a.json" document]
        /\ Cache_Get " x/../a" w1 = Done (Some document, None) w2
        /\ trace w2 = [EvWriteFile "testdata/a.json" document;
                       EvStat "testdata/a.json"; EvReadFile "testdata/a.json"])
  /\ ~ (forall name, padded name -> getPath cold name <> updatePath cold name).
Proof.
  assert (Hpad : padded " x/../a").
  { exists [" "%char], (list_ascii_of_string "x/../a").
    split; [reflexivity|left; reflexivity]. }
  split; [exact Hpad|]. split; [reflexivity|]. split; [reflexivity|]. split.
  - eexists _, _. split; [vm_compute; reflexivity|]. split; [reflexivity|].
    split; [vm_compute; reflexivity|]. reflexivity.
  - intros H. apply (H " x/../a" Hpad). reflexivity.
Qed.

(** Two goroutines ask for [config_name] on the cold cache: both stat
    the file and give up the read lock, the first reloads, time passes,
    the second finds the Entry of the first under the write lock. *)
Lemma two_callers_run :
  exists s',
    rtc step (mkSystem cold [Idle; Idle] []) s'
    /\ observed s' = [(0%nat, "config_name"%string, 100); (1%nat, "config_name"%string, 100)].
Proof.
  eexists. split.
  - eapply rtc_l.
    { eapply (step_shared _ 0 Background "config_name"); [reflexivity|].
      vm_compute. reflexivity. }
    eapply rtc_l.
    { eapply (step_shared _ 1 Background "config_name"); [reflexivity|].
      vm_compute. reflexivity. }
    eapply rtc_l.
    { eapply (step_exclusive _ 0 Background "config_name"); [reflexivity|].
      vm_compute. reflexivity. }
    eapply rtc_l.
    { eapply (step_env _ (set_clock 200 _)).
      split; [reflexivity|]. split; [vm_compute; discriminate|].
      split; [reflexivity|]. intros e cv H. by exists cv. }
    eapply rtc_l.
    { eapply (step_exclusive _ 1 Background "config_name"); [reflexivity|].
      vm_compute. reflexivity. }
    apply rtc_refl.
  - vm_compute. reflexivity.
Defined.

Lemma freshness_monotone_witness :
  exists s',
    rtc step (mkSystem cold [Idle; Idle] []) s'
    /\ length (observed s') = 2%nat
    /\ nondecreasing (observed s').
Proof.
  destruct two_callers_run as (s' & Hrun & Hobs).
  exists s'. split; [exact Hrun|]. split; [by rewrite Hobs|].
  apply (freshness_monotone (mkSystem cold [Idle; Idle] []) s');
    [reflexivity | exact cold_timely | exact Hrun].
Defined.

(** Two calls of [Get[ConfigNameT]] for the loaded, not yet decoded
    [config_name]: both resolve it on the fast path and find the slot
    empty without the lock; the first decodes under the lock, time
    passes, the second finds the slot filled under the lock. *)
Lemma two_accessors_run :
  exists P,
    rtc (pool_step test_Unmarshal ConfigNameT "config_name")
        (mkPool (warm 200 None testdata) (replicate 2 Calling)) P
    /\ accessors P = [Finished (Some 0%nat, None); Finished (Some 0%nat, None)]
    /\ trace (pool_world P) = [EvUnmarshal document].
Proof.
  eexists. split.
  - eapply rtc_l.
    { eapply (pool_shared _ _ _ _ 0); [reflexivity|]. vm_compute. reflexivity. }
    eapply rtc_l.
    { eapply (pool_shared _ _ _ _ 1); [reflexivity|]. vm_compute. reflexivity. }
    eapply rtc_l.
    { eapply (pool_cached _ _ _ _ 0); [reflexivity|]. vm_compute. reflexivity. }
    eapply rtc_l.
    { eapply (pool_cached _ _ _ _ 1); [reflexivity|]. vm_compute. reflexivity. }
    eapply rtc_l.
    { eapply (pool_decode _ _ _ _ 0); [reflexivity|]. vm_compute. reflexivity. }
    eapply rtc_l.
    { eapply (pool_env _ _ _ _ (set_clock 300 _)).
      split; [split; [reflexivity|split; reflexivity]|].
      split; [reflexivity|]. split; [vm_compute; discriminate|].
      vm_compute. reflexivity. }
    eapply rtc_l.
    { eapply (pool_decode _ _ _ _ 1); [reflexivity|]. vm_compute. reflexivity. }
    apply rtc_refl.
  - split; vm_compute; reflexivity.
Defined.


(** ** What every call keeps *)

(** Case analysis on what the code tests, innermost test first. *)
Ltac case_inner :=
  match goal with
  | |- context [assert_type _ ?v _] => destruct v as [[? ?]|] eqn:?
  | |- context [match ?x with _ => _ end] =>
    lazymatch x with
    | context [match _ with _ => _ end] => fail
    | _ => destruct x eqn:?
    end
  end.
Ltac cases := simpl; repeat (case_inner; simpl).

Section Guarantees.
Context {GoType : Type} `{!EqDecision GoType} {JVal : Type}.
Variable json_Unmarshal : GoType -> bytes -> JVal + string.
Variable json_Marshal : GoType -> JVal -> bytes + string.
Implicit Types (w : @World GoType JVal) (cv : @configValue GoType).

Lemma evolves_refl w : evolves w w.
Proof. unfold evolves. split_and!; try done; try lia. intros e cv H. by exists cv. Qed.

Lemma evolves_trans w1 w2 w3 : evolves w1 w2 -> evolves w2 w3 -> evolves w1 w3.
Proof.
  intros (Hl1 & Hd1 & Hc1 & Hn1 & He1 & Hv1) (Hl2 & Hd2 & Hc2 & Hn2 & He2 & Hv2).
  unfold evolves. split_and!; try congruence; try lia; auto.
  intros e cv H. destruct (He1 _ _ H) as (cv1 & H1 & Ht1 & Hr1).
  destruct (He2 _ _ H1) as (cv2 & H2 & Ht2 & Hr2).
  exists cv2. split_and!; congruence.
Qed.

Lemma kept_refl w : kept json_Unmarshal w w.
Proof. intros H. split; [apply evolves_refl | done]. Qed.

Lemma kept_trans w1 w2 w3 :
  kept json_Unmarshal w1 w2 -> kept json_Unmarshal w2 w3 -> kept json_Unmarshal w1 w3.
Proof.
  intros H1 H2 Hw. destruct (H1 Hw) as [E1 W2]. destruct (H2 W2) as [E2 W3].
  split; [by eapply evolves_trans | done].
Qed.

(** Time passes, files change, the trace grows: the memory is as it was. *)
Lemma kept_same w w' :
  same_memory w w' -> clock w <= clock w' -> kept json_Unmarshal w w'.
Proof.
  intros (Hc & Ho & Hd) Ht (Hdang & Htim & Hsl).
  split.
  - unfold evolves. rewrite Hc, Ho, Hd. split_and!; try done.
    intros e cv H. by exists cv.
  - split_and!.
    + intros name p H. rewrite Hc in H. rewrite Ho. exact (Hdang _ _ H).
    + intros name p H. rewrite Hc in H. rewrite Ho.
      destruct (Htim _ _ H) as (cv & Hcv & Hle). exists cv. split; [done | lia].
    + intros e cv T p H HV. rewrite Ho in H. rewrite Hd. exact (Hsl _ _ _ _ H HV).
Qed.

(** A reload adds an Entry and redirects the name. *)
Lemma kept_reloaded w name path data :
  kept json_Unmarshal w (reloaded w name path data).
Proof.
  intros (Hdang & Htim & Hsl).
  destruct w as [[dir l m tmo] o d f c tr]; unfold reloaded; simpl in *.
  split.
  - unfold evolves; simpl. split_and!; try done.
    + intros n [p Hn]. destruct (decide (name = n)) as [->|Hne].
      * rewrite lookup_insert_eq. by eexists.
      * rewrite lookup_insert_ne by done. by eexists.
    + intros e cv H. exists cv. split; [|done]. by apply lookup_app_l_Some.
  - split_and!.
    + intros n p. simpl. destruct (decide (name = n)) as [->|Hne].
      * rewrite lookup_insert_eq. intros [= <-]. rewrite lookup_app_r by done.
        rewrite Nat.sub_diag. by eexists.
      * rewrite lookup_insert_ne by done. intros H.
        destruct (Hdang _ _ H) as [cv Hcv]. exists cv. by apply lookup_app_l_Some.
    + intros n p. simpl. destruct (decide (name = n)) as [->|Hne].
      * rewrite lookup_insert_eq. intros [= <-]. eexists. split.
        -- rewrite lookup_app_r by done. rewrite Nat.sub_diag. reflexivity.
        -- simpl. lia.
      * rewrite lookup_insert_ne by done. intros H.
        destruct (Htim _ _ H) as (cv & Hcv & Hle). exists cv.
        split; [by apply lookup_app_l_Some | done].
    + intros e cv T p. simpl. intros H HV.
      apply lookup_snoc_Some in H as [[_ H] | [_ Heq]]; [|by subst].
      exact (Hsl _ _ _ _ H HV).
Qed.

(** A decode fills the slot of an Entry with a new value. *)
Lemma kept_decoded_into w T e cv v :
  objs w !! e = Some cv ->
  json_Unmarshal T (Raw cv) = inl v ->
  kept json_Unmarshal w (decoded_into w T e cv v).
Proof.
  intros He Hv (Hdang & Htim & Hsl).
  destruct w as [[dir l m tmo] o d f c tr]; unfold decoded_into; simpl in *.
  assert (Hlt : (e < length o)%nat) by (by eapply lookup_lt_Some).
  assert (Hsame : forall cv', o !! e = Some cv' -> cv' = cv).
  { intros cv' H. apply (inj Some). by rewrite <- H, <- He. }
  split.
  - unfold evolves; simpl. split_and!; try done.
    + intros e' cv' H. destruct (decide (e = e')) as [<-|Hne].
      * apply Hsame in H as ->.
        rewrite list_lookup_insert_eq by done. eexists. split; [done|]. done.
      * rewrite list_lookup_insert_ne by done. by exists cv'.
    + intros p u H. by apply lookup_app_l_Some.
  - split_and!.
    + intros n p H. simpl in *. destruct (Hdang _ _ H) as [cv' Hcv'].
      destruct (decide (e = p)) as [<-|Hne].
      * rewrite list_lookup_insert_eq by done. by eexists.
      * rewrite list_lookup_insert_ne by done. by eexists.
    + intros n p H. simpl in *. destruct (Htim _ _ H) as (cv' & Hcv' & Hle).
      destruct (decide (e = p)) as [<-|Hne].
      * apply Hsame in Hcv' as ->.
        rewrite list_lookup_insert_eq by done. eexists. split; [done|]. done.
      * rewrite list_lookup_insert_ne by done. by exists cv'.
    + intros e' cv' U p. simpl. intros H HV.
      destruct (decide (e = e')) as [<-|Hne].
      * rewrite list_lookup_insert_eq in H by done. injection H as <-.
        simpl in HV. injection HV as <- <-. exists v. split; [|done].
        rewrite lookup_app_r by done. by rewrite Nat.sub_diag.
      * rewrite list_lookup_insert_ne in H by done.
        destruct (Hsl _ _ _ _ H HV) as (u & Hu & HU). exists u.
        split; [by apply lookup_app_l_Some | done].
Qed.

Lemma ensures_ret {A} (a : A) : ensures (ret a) (kept json_Unmarshal).
Proof. intros w. simpl. apply kept_refl. Qed.

Lemma ensures_bind {A B} (m : M A) (k : A -> M B) :
  ensures m (kept json_Unmarshal) ->
  (forall a, ensures (k a) (kept json_Unmarshal)) ->
  ensures (bind m k) (kept json_Unmarshal).
Proof.
  intros Hm Hk w. specialize (Hm w). simpl.
  destruct (m w) as [a w1|p w1| |]; try done.
  specialize (Hk a w1). destruct (k a w1); try done; by eapply kept_trans.
Qed.

(** The two sections of [verboseGet]. *)
Lemma outcomes_shared ctx name w :
  no_dangling w ->
  match verboseGet_shared ctx name w with
  | Done _ w' | Panicked _ w' => same_memory w w' /\ clock w' = clock w
  | _ => True
  end.
Proof.
  intros Hd. destruct w as [[dir [r wr] m tmo] o d f c tr].
  unfold verboseGet_shared, same_memory, no_dangling in *; simpl in *.
  destruct ctx as [|[|]|dl]; cases; auto.
  all: try (destruct (Hd _ _ ltac:(eassumption)) as [? ?]; congruence).
Qed.

Lemma outcomes_exclusive ctx name path modTime w :
  match verboseGet_exclusive ctx name path modTime w with
  | Done _ w' | Panicked _ w' =>
    (same_memory w w' /\ clock w' = clock w)
    \/ exists data, w' = reloaded w name path data
  | _ => True
  end.
Proof.
  destruct w as [[dir [r wr] m tmo] o d f c tr].
  unfold verboseGet_exclusive, same_memory, reloaded; simpl.
  destruct ctx as [|[|]|dl]; cases; auto.
  all: right; eexists; reflexivity.
Qed.

Lemma ensures_verboseGet ctx name :
  ensures (verboseGet ctx name) (kept json_Unmarshal).
Proof.
  intros w. unfold verboseGet. simpl.
  destruct (verboseGet_shared ctx name w) as [r w1|p w1| |] eqn:Hs; try done.
  - assert (Hk : kept json_Unmarshal w w1).
    { intros Hw. pose proof (outcomes_shared ctx name w (proj1 Hw)) as H.
      rewrite Hs in H. destruct H as [H1 H2]. apply kept_same; [done | lia | done]. }
    destruct r as [res | [path modTime]]; simpl; [done|].
    pose proof (outcomes_exclusive ctx name path modTime w1) as He.
    destruct (verboseGet_exclusive ctx name path modTime w1); try done.
    all: eapply kept_trans; [exact Hk|].
    all: destruct He as [[H1 H2] | [data ->]];
      [apply kept_same; [done | lia] | apply kept_reloaded].
  - intros Hw. pose proof (outcomes_shared ctx name w (proj1 Hw)) as H.
    rewrite Hs in H. destruct H as [H1 H2]. apply kept_same; [done | lia | done].
Qed.

Lemma ensures_load cfg : ensures (JVal:=JVal) (load cfg) (kept json_Unmarshal).
Proof.
  intros w. destruct cfg as [e|]; simpl; [|apply kept_refl].
  destruct (objs w !! e); apply kept_refl.
Qed.

Lemma ensures_Cache_GetContext ctx name :
  ensures (Cache_GetContext ctx name) (kept json_Unmarshal).
Proof.
  unfold Cache_GetContext. apply ensures_bind; [apply ensures_verboseGet|].
  intros [[cfg u] [e|]]; [apply ensures_ret|].
  destruct cfg; [|apply ensures_ret].
  apply ensures_bind; [apply ensures_load | intros; apply ensures_ret].
Qed.

(** The two parts of [GetContext[T]]. *)
Lemma outcomes_cached T cfg updated w :
  match GetContext_cached T cfg updated w with
  | Done _ w' | Panicked _ w' => w' = w
  | _ => True
  end.
Proof.
  unfold GetContext_cached. destruct cfg as [e|]; cases; auto.
Qed.

Lemma outcomes_decode T ctx cfg updated w :
  match GetContext_decode json_Unmarshal T ctx cfg updated w with
  | Done _ w' | Panicked _ w' =>
    (same_memory w w' /\ clock w' = clock w)
    \/ exists e cv v, objs w !! e = Some cv /\ json_Unmarshal T (Raw cv) = inl v
                      /\ w' = decoded_into w T e cv v
  | _ => True
  end.
Proof.
  destruct w as [[dir [r wr] m tmo] o d f c tr].
  unfold GetContext_decode, same_memory, decoded_into; simpl.
  destruct ctx as [|[|]|dl]; destruct cfg as [e|]; cases; auto 10.
  all: simplify_eq; right; eexists _, _, _; split_and!; first [eassumption | reflexivity].
Qed.

Lemma ensures_GetContext T ctx name :
  ensures (GetContext json_Unmarshal T ctx name) (kept json_Unmarshal).
Proof.
  unfold GetContext. apply ensures_bind; [apply ensures_verboseGet|].
  intros [[cfg u] [e|]]; [apply ensures_ret|].
  apply ensures_bind.
  - intros w. pose proof (outcomes_cached T cfg u w) as H.
    destruct (GetContext_cached T cfg u w); try done; subst; apply kept_refl.
  - intros [p|]; [apply ensures_ret|].
    intros w. pose proof (outcomes_decode T ctx cfg u w) as H.
    destruct (GetContext_decode json_Unmarshal T ctx cfg u w); try done.
    all: destruct H as [[H1 H2] | (e & cv & v & He & Hv & ->)];
      [apply kept_same; [done | lia] | by apply kept_decoded_into].
Qed.

Lemma outcomes_update ctx name data w :
  match Cache_UpdateContext ctx name data w with
  | Done _ w' | Panicked _ w' => same_memory w w' /\ clock w' = clock w
  | _ => True
  end.
Proof.
  destruct w as [[dir [r wr] m tmo] o d f c tr].
  unfold Cache_UpdateContext, same_memory; simpl.
  destruct ctx as [|[|]|dl]; cases; auto.
Qed.

Lemma ensures_Cache_UpdateContext ctx name data :
  ensures (Cache_UpdateContext ctx name data) (kept json_Unmarshal).
Proof.
  intros w. pose proof (outcomes_update ctx name data w) as H.
  destruct (Cache_UpdateContext ctx name data w); try done.
  all: destruct H as [H1 H2]; apply kept_same; [done | lia].
Qed.

Lemma outcomes_stats w :
  match Cache_Stats w with
  | Done st w' =>
    w' = w /\ st = mkStats (directory (cache w)) (map fst (map_to_list (configs (cache w))))
  | Panicked _ _ => False
  | _ => True
  end.
Proof.
  destruct w as [[dir [r wr] m tmo] o d f c tr].
  unfold Cache_Stats; simpl. destruct wr; simpl; auto.
Qed.

Lemma ensures_perform c :
  ensures (perform json_Unmarshal json_Marshal c) (kept json_Unmarshal).
Proof.
  destruct c as [ctx name|T ctx name|ctx name data|T ctx name value| |d]; simpl.
  - apply ensures_bind; [apply ensures_Cache_GetContext | intros; apply ensures_ret].
  - apply ensures_bind; [apply ensures_GetContext | intros; apply ensures_ret].
  - apply ensures_bind; [apply ensures_Cache_UpdateContext | intros; apply ensures_ret].
  - apply ensures_bind; [|intros; apply ensures_ret].
    unfold UpdateContext. destruct (json_Marshal T value);
      [apply ensures_Cache_UpdateContext | apply ensures_ret].
  - apply ensures_bind; [|intros; apply ensures_ret].
    intros w. pose proof (outcomes_stats w) as H.
    destruct (Cache_Stats w); try done. destruct H as [-> _]. apply kept_refl.
  - intros w. simpl. intros (Hdang & Htim & Hsl).
    destruct w as [[dir l m tmo] o dd f c tr]; simpl.
    split; [|done].
    unfold evolves; simpl. split_and!; try done. intros e cv H. by exists cv.
Qed.

Lemma ensures_execute a :
  ensures (execute json_Unmarshal json_Marshal a) (kept json_Unmarshal).
Proof.
  destruct a as [c|d|fs]; simpl.
  - apply ensures_perform.
  - intros w. simpl. destruct w as [ch o dd f c tr]; simpl.
    apply kept_same; [done | simpl; lia].
  - intros w. simpl. destruct w as [ch o dd f c tr]; simpl.
    apply kept_same; [done | simpl; lia].
Qed.

Lemma ensures_execute_all l :
  ensures (execute_all json_Unmarshal json_Marshal l) (kept json_Unmarshal).
Proof.
  induction l as [|a l IH]; simpl; [apply ensures_ret|].
  apply ensures_bind; [apply ensures_execute | intros; exact IH].
Qed.

(** X1. Whatever a program does with the cache, once a call has
    returned or panicked the lock is as it was before: no call leaves it
    held. *)
Theorem calls_release_the_lock prog w :
  well_formed json_Unmarshal w ->
  match execute_all json_Unmarshal json_Marshal prog w with
  | Done _ w' | Panicked _ w' => lock (cache w') = lock (cache w)
  | _ => True
  end.
Proof.
  intros Hw. pose proof (ensures_execute_all prog w) as H.
  destruct (execute_all json_Unmarshal json_Marshal prog w); try done.
  all: by destruct (H Hw) as [(Hl & _) _].
Qed.

Lemma Stats_names (m : gmap string nat) name :
  name ∈ map fst (map_to_list m) <-> is_Some (m !! name).
Proof.
  rewrite list_elem_of_In, in_map_iff. split.
  - intros ([n p] & <- & Hin). apply list_elem_of_In, elem_of_map_to_list in Hin.
    by eexists.
  - intros [p Hp]. exists (name, p). split; [done|].
    by apply list_elem_of_In, elem_of_map_to_list.
Qed.

Lemma Stats_run w :
  writer (lock (cache w)) = false ->
  Cache_Stats w
  = Done (mkStats (directory (cache w)) (map fst (map_to_list (configs (cache w))))) w.
Proof.
  intros Hl. destruct w as [[dir [r wr] m tmo] o d f c tr]; simpl in *; subst.
  reflexivity.
Qed.

(** X2. [Stats] reports the directory and exactly the names the mapping
    holds, each once, and changes nothing. *)
Theorem stats_lists_the_mapping w :
  writer (lock (cache w)) = false ->
  exists st,
    Cache_Stats w = Done st w
    /\ Directory st = directory (cache w)
    /\ NoDup (Configs st)
    /\ forall name, name ∈ Configs st <-> is_Some (configs (cache w) !! name).
Proof.
  intros Hl. eexists. split; [by apply Stats_run|]. simpl. split_and!; [done| |].
  - change (map fst (map_to_list (configs (cache w))))
      with ((map_to_list (configs (cache w))).*1).
    apply NoDup_fst_map_to_list.
  - apply Stats_names.
Qed.

(** X3. Nothing is ever evicted: a name [Stats] has listed is listed
    after any program that returns or panics. *)
Theorem loaded_names_stay prog w st :
  well_formed json_Unmarshal w ->
  Cache_Stats w = Done st w ->
  match execute_all json_Unmarshal json_Marshal prog w with
  | Done _ w' | Panicked _ w' =>
    exists st', Cache_Stats w' = Done st' w'
                /\ forall name, name ∈ Configs st -> name ∈ Configs st'
  | _ => True
  end.
Proof.
  intros Hw Hst. pose proof (ensures_execute_all prog w) as H.
  pose proof (outcomes_stats w) as Ho. rewrite Hst in Ho. destruct Ho as [_ ->].
  assert (Hl : writer (lock (cache w)) = false).
  { destruct w as [[dir [r wr] m tmo] o d f c tr]. unfold Cache_Stats in Hst.
    simpl in *. by destruct wr. }
  destruct (execute_all json_Unmarshal json_Marshal prog w) as [u w'|p w'| |]; try done.
  all: destruct (H Hw) as [(Hl' & _ & _ & Hn & _) _].
  all: eexists; split; [apply Stats_run; by rewrite Hl'|].
  all: simpl; intros name Hin; apply Stats_names, Hn; by apply Stats_names.
Qed.

(** X4. What a caller holds stays as it is: through any program, the
    bytes and the load time of every Entry and every decoded value are
    what they were; a reload or a decode allocates, it does not
    overwrite. *)
Theorem results_are_never_overwritten prog w :
  well_formed json_Unmarshal w ->
  match execute_all json_Unmarshal json_Marshal prog w with
  | Done _ w' | Panicked _ w' =>
    (forall p v, decoded w !! p = Some v -> decoded w' !! p = Some v)
    /\ (forall e cv, objs w !! e = Some cv ->
          exists cv', objs w' !! e = Some cv'
                      /\ Raw cv' = Raw cv /\ LastUpdate cv' = LastUpdate cv)
  | _ => True
  end.
Proof.
  intros Hw. pose proof (ensures_execute_all prog w) as H.
  destruct (execute_all json_Unmarshal json_Marshal prog w); try done.
  all: destruct (H Hw) as [(_ & _ & _ & _ & He & Hv) _].
  all: split; [done|]; intros e cv Hcv; destruct (He _ _ Hcv) as (cv' & ? & ? & ?).
  all: by exists cv'.
Qed.

End Guarantees.

(** ** Typed gets, updates and how they compose *)

(** Case analysis on what the code tested, for a run that is known to
    have returned. *)
Ltac returned_step :=
  match goal with
  | H : Done _ _ = Done _ _ |- _ => injection H; clear H; intros
  | H : (_, _) = (_, _) |- _ => injection H; clear H; intros
  | H : Some _ = Some _ |- _ => injection H; clear H; intros
  | H : Some _ = None |- _ => discriminate H
  | H : None = Some _ |- _ => discriminate H
  | H : Panicked _ _ = Done _ _ |- _ => discriminate H
  | H : Fatal _ = Done _ _ |- _ => discriminate H
  | H : Blocked = Done _ _ |- _ => discriminate H
  | H : context [assert_type _ ?v _] |- _ => destruct v as [[? ?]|] eqn:?
  | H : context [match ?x with _ => _ end] |- _ => destruct x eqn:?
  end.
Ltac returned := subst; simpl in *; repeat (returned_step; subst; simpl in *).

Section Composition.
Context {GoType : Type} `{!EqDecision GoType} {JVal : Type}.
Variable json_Unmarshal : GoType -> bytes -> JVal + string.
Variable json_Marshal : GoType -> JVal -> bytes + string.
Implicit Types (w : @World GoType JVal) (cv : @configValue GoType).

Lemma context_error_run ctx w :
  ctx_Err ctx w = Done (context_error ctx (clock w)) w.
Proof. by destruct ctx. Qed.

Lemma GetContext_decode_slot T ctx cfg updated w p err w' :
  GetContext_decode json_Unmarshal T ctx cfg updated w = Done (Some p, err) w' ->
  err = None /\ cache w' = cache w
  /\ exists e cv, cfg = Some e /\ objs w' !! e = Some cv /\ Value cv = Some (T, p).
Proof.
  destruct w as [[dir [r wr] m tmo] o d f c tr]. unfold GetContext_decode.
  intros H. destruct ctx as [|[|]|dl]; destruct cfg as [e|]; returned.
  all: split; [done|]; split; [done|]; eexists _, _; split; [done|].
  all: try (split; [eassumption|]; simpl; congruence).
  all: rewrite list_lookup_insert_eq by (by eapply lookup_lt_Some); done.
Qed.

Lemma GetContext_slot T ctx name w p err w' :
  GetContext json_Unmarshal T ctx name w = Done (Some p, err) w' ->
  err = None
  /\ exists e cv, configs (cache w') !! name = Some e /\ objs w' !! e = Some cv
     /\ Value cv = Some (T, p).
Proof.
  unfold GetContext. simpl. intros H.
  destruct (verboseGet ctx name w) as [[[cfg updated] verr] w1| | |] eqn:HV; try done.
  apply verboseGet_inv in HV as (_ & Hcfg & _ & _).
  destruct verr as [e0|]; simpl in H; [done|]. specialize (Hcfg eq_refl).
  destruct (GetContext_cached T cfg updated w1) as [r w2| | |] eqn:HC; try done.
  apply GetContext_cached_inv in HC as (-> & e & cv & -> & Ho & Hr).
  destruct r as [q|]; simpl in H.
  - injection H as -> <- <-. destruct Hr as [_ Hv]. split; [done|]. by exists e, cv.
  - apply GetContext_decode_slot in H as (-> & Hc & e' & cv' & [= <-] & Ho' & Hv).
    split; [done|]. exists e, cv'. by rewrite Hc.
Qed.

(** *** How [verboseGet] resolves a name, for a context that is live *)

Lemma verboseGet_fast ctx name w p cv :
  writer (lock (cache w)) = false ->
  context_error ctx (clock w) = None ->
  configs (cache w) !! name = Some p ->
  objs w !! p = Some cv ->
  time_Sub (clock w) (LastUpdate cv) < syncTimeout (cache w) ->
  verboseGet ctx name w = Done (Some p, false, None) w.
Proof.
  intros Hl Hc Hm Ho Ht.
  destruct w as [[dir [r wr] m tmo] o d f c tr]; simpl in *; subst.
  assert (Hb : (time_Sub c (LastUpdate cv) <? tmo) = true) by (apply Z.ltb_lt; lia).
  unfold verboseGet, verboseGet_shared. simpl.
  rewrite context_error_run. simpl. rewrite Hc. run. done.
Qed.

Lemma verboseGet_unmodified ctx name w p cv f :
  writer (lock (cache w)) = false ->
  context_error ctx (clock w) = None ->
  configs (cache w) !! name = Some p ->
  objs w !! p = Some cv ->
  syncTimeout (cache w) <= time_Sub (clock w) (LastUpdate cv) ->
  files w !! getPath w name = Some f ->
  ModTime f <= LastUpdate cv ->
  verboseGet ctx name w = Done (Some p, false, None) (log (EvStat (getPath w name)) w).
Proof.
  intros Hl Hc Hm Ho Ht Hf Hmod.
  destruct w as [[dir [r wr] m tmo] o d fs c tr]; unfold getPath in *; simpl in *; subst.
  assert (Hb : (time_Sub c (LastUpdate cv) <? tmo) = false) by (apply Z.ltb_ge; lia).
  assert (Ha : time_After (ModTime f) (LastUpdate cv) = false)
    by (unfold time_After; apply Z.ltb_ge; lia).
  unfold verboseGet, verboseGet_shared. simpl.
  rewrite context_error_run. simpl. rewrite Hc. run. done.
Qed.

Lemma verboseGet_reload ctx name w f :
  lock (cache w) = unlockedMutex ->
  context_error ctx (clock w) = None ->
  no_dangling w ->
  fresh w name = false ->
  files w !! getPath w name = Some f ->
  Readable f = true ->
  lastUpdate w name < ModTime f ->
  verboseGet ctx name w
  = Done (Some (length (objs w)), true, None)
         (reloaded (log (EvStat (getPath w name)) w) name (getPath w name) (Data f)).
Proof.
  intros Hl Hc Hd Hfr Hf Hr Ht.
  destruct w as [[dir l m tmo] o d fs c tr];
    unfold getPath, reloaded, unlockedMutex, fresh, lastUpdate, entry, no_dangling in *;
    simpl in *; subst.
  unfold verboseGet, verboseGet_shared, verboseGet_exclusive. simpl.
  rewrite !context_error_run. simpl. rewrite Hc. simpl.
  destruct (m !! name) as [p|] eqn:Hm; simpl.
  - destruct (Hd _ _ Hm) as [cv Ho]. rewrite Ho in *. simpl.
    assert (Ha : time_After (ModTime f) (LastUpdate cv) = true)
      by (unfold time_After; apply Z.ltb_lt; lia).
    run. rewrite context_error_run. simpl. rewrite Hc. run. done.
  - assert (Ha : time_After (ModTime f) zeroTime = true)
      by (unfold time_After; apply Z.ltb_lt; lia).
    run. rewrite context_error_run. simpl. rewrite Hc. run. done.
Qed.

Lemma Cache_Update_run ctx w name data :
  lock (cache w) = unlockedMutex ->
  context_error ctx (clock w) = None ->
  (forall f, files w !! updatePath w name = Some f -> Writable f = true) ->
  Cache_UpdateContext ctx name data w = Done None (written w name data).
Proof.
  intros Hl Hc Hf.
  destruct w as [[dir l m tmo] o d fs c tr];
    unfold written, updatePath, unlockedMutex in *; simpl in *; subst.
  unfold Cache_UpdateContext. simpl. rewrite context_error_run. simpl. rewrite Hc. simpl.
  destruct (fs !! filepath_Join dir (Sprintf_json name)) as [f|] eqn:E; simpl; [|done].
  rewrite (Hf f eq_refl). done.
Qed.

Lemma Cache_Get_of name w p cv w' u :
  verboseGet Background name w = Done (Some p, u, None) w' ->
  objs w' !! p = Some cv ->
  Cache_Get name w = Done (Some (Raw cv), None) w'.
Proof.
  intros H Ho. unfold Cache_Get, Cache_GetContext. simpl. rewrite H. simpl.
  by rewrite Ho.
Qed.

Lemma reloaded_after_stat w ev name path data :
  objs (reloaded (log ev w) name path data) !! length (objs w)
  = Some (mkConfigValue (clock w) None data).
Proof.
  destruct w as [ch o d fs c tr]; unfold reloaded; simpl.
  rewrite lookup_app_r by done. by rewrite Nat.sub_diag.
Qed.

Lemma log_facts ev w :
  cache (log ev w) = cache w /\ objs (log ev w) = objs w
  /\ decoded (log ev w) = decoded w /\ files (log ev w) = files w
  /\ clock (log ev w) = clock w /\ trace (log ev w) = trace w ++ [ev].
Proof. by destruct w. Qed.

Lemma written_facts w name data :
  cache (written w name data) = cache w
  /\ objs (written w name data) = objs w
  /\ decoded (written w name data) = decoded w
  /\ clock (written w name data) = clock w
  /\ exists f, files (written w name data) !! updatePath w name = Some f
               /\ Data f = data /\ ModTime f = clock w /\ Writable f = true
               /\ Readable f = match files w !! updatePath w name with
                               | Some f0 => Readable f0
                               | None => true
                               end.
Proof.
  destruct w as [[dir l m tmo] o d fs c tr]; unfold written; simpl.
  split_and!; try done. eexists. rewrite lookup_insert_eq. split; [done|]. done.
Qed.

Lemma set_clock_facts t w :
  cache (set_clock t w) = cache w /\ objs (set_clock t w) = objs w
  /\ decoded (set_clock t w) = decoded w /\ files (set_clock t w) = files w
  /\ clock (set_clock t w) = t /\ trace (set_clock t w) = trace w.
Proof. by destruct w. Qed.

Lemma Cache_UpdateContext_inv ctx name data w err w1 :
  Cache_UpdateContext ctx name data w = Done err w1 ->
  lock (cache w) = unlockedMutex /\ same_memory w w1 /\ clock w1 = clock w.
Proof.
  destruct w as [[dir [r wr] m tmo] o d f c tr].
  unfold Cache_UpdateContext, same_memory, unlockedMutex. intros H.
  destruct ctx as [|[|]|dl]; returned; done.
Qed.

(** A get that does not take the fast path, after the bytes for the
    name were written later than the Entry was loaded. *)
Lemma get_after_write w name data t :
  lock (cache w) = unlockedMutex ->
  no_dangling w ->
  TrimSpace name = name ->
  (forall f, files w !! updatePath w name = Some f -> Readable f = true) ->
  lastUpdate w name < clock w ->
  fresh (set_clock t (written w name data)) name = false ->
  exists w2, Cache_Get name (set_clock t (written w name data))
             = Done (Some data, None) w2.
Proof.
  intros Hl Hd Hn Hf Hlu Hfr.
  destruct (written_facts w name data) as (Hc & Ho & _ & Hk & f & Hfile & Hdata & Hmod & _ & Hrd).
  set (w0 := written w name data) in *.
  destruct (set_clock_facts t w0) as (Hc1 & Ho1 & _ & Hf1 & Hk1 & _).
  set (w1 := set_clock t w0) in *.
  assert (Hpath : getPath w1 name = updatePath w name).
  { unfold getPath, updatePath. by rewrite Hn, Hc1, Hc. }
  assert (Hr : Readable f = true).
  { rewrite Hrd. destruct (files w !! updatePath w name) as [f0|] eqn:E; [|done].
    exact (Hf f0 eq_refl). }
  assert (Hlast : lastUpdate w1 name = lastUpdate w name).
  { unfold lastUpdate, entry. by rewrite Hc1, Ho1, Hc, Ho. }
  eexists. rewrite <- Hdata.
  refine (Cache_Get_of name w1 _ (mkConfigValue _ None (Data f)) _ _ _ _).
  - apply (verboseGet_reload Background name w1 f).
    + by rewrite Hc1, Hc.
    + done.
    + intros n p H. rewrite Hc1, Hc in H. rewrite Ho1, Ho. exact (Hd _ _ H).
    + done.
    + by rewrite Hpath, Hf1.
    + done.
    + rewrite Hlast, Hmod. done.
  - apply reloaded_after_stat.
Qed.


(** X6. An update is not seen while the Entry is inside its freshness
    window: whatever was written, a get at any time [t] inside the
    window returns the bytes of the Entry, and does nothing else. *)
Theorem update_unseen_inside_window w name data p cv err w1 t :
  configs (cache w) !! name = Some p ->
  objs w !! p = Some cv ->
  Cache_Update name data w = Done err w1 ->
  time_Sub t (LastUpdate cv) < syncTimeout (cache w) ->
  Cache_Get name (set_clock t w1) = Done (Some (Raw cv), None) (set_clock t w1).
Proof.
  intros Hm Ho Hu Ht.
  apply Cache_UpdateContext_inv in Hu as (Hl & (Hc & Hob & _) & _).
  destruct (set_clock_facts t w1) as (Hc1 & Ho1 & _ & _ & Hk1 & _).
  eapply Cache_Get_of.
  - eapply (verboseGet_fast Background name _ p cv).
    + by rewrite Hc1, Hc, Hl.
    + done.
    + by rewrite Hc1, Hc.
    + by rewrite Ho1, Hob.
    + by rewrite Hk1, Hc1, Hc.
  - by rewrite Ho1, Hob.
Qed.

(** X7. The comparison with the file is strict: an update written at
    the very clock reading at which the Entry was loaded is never seen,
    however late the next get comes; it returns the bytes of the Entry. *)
Theorem update_at_load_instant_unseen w name data p cv t :
  lock (cache w) = unlockedMutex ->
  TrimSpace name = name ->
  configs (cache w) !! name = Some p ->
  objs w !! p = Some cv ->
  (forall f, files w !! updatePath w name = Some f -> Writable f = true) ->
  clock w <= LastUpdate cv ->
  Cache_Update name data w = Done None (written w name data)
  /\ exists w2, Cache_Get name (set_clock t (written w name data))
                = Done (Some (Raw cv), None) w2.
Proof.
  intros Hl Hn Hm Ho Hf Hle.
  split; [by apply Cache_Update_run|].
  destruct (written_facts w name data) as (Hc & Hob & _ & Hk & f & Hfile & Hdata & Hmod & _).
  set (w0 := written w name data) in *.
  destruct (set_clock_facts t w0) as (Hc1 & Ho1 & _ & Hf1 & Hk1 & _).
  set (w1 := set_clock t w0) in *.
  assert (Hpath : getPath w1 name = updatePath w name).
  { unfold getPath, updatePath. by rewrite Hn, Hc1, Hc. }
  destruct (Z.lt_ge_cases (time_Sub t (LastUpdate cv)) (syncTimeout (cache w))) as [Hfr|Hst].
  - exists w1. eapply Cache_Get_of.
    + eapply (verboseGet_fast Background name _ p cv).
      * by rewrite Hc1, Hc, Hl.
      * done.
      * by rewrite Hc1, Hc.
      * by rewrite Ho1, Hob.
      * by rewrite Hk1, Hc1, Hc.
    + by rewrite Ho1, Hob.
  - eexists. eapply Cache_Get_of.
    + eapply (verboseGet_unmodified Background name w1 p cv f).
      * by rewrite Hc1, Hc, Hl.
      * done.
      * by rewrite Hc1, Hc.
      * by rewrite Ho1, Hob.
      * by rewrite Hk1, Hc1, Hc.
      * by rewrite Hpath, Hf1.
      * lia.
    + destruct (log_facts (EvStat (getPath w1 name)) w1) as (_ & -> & _).
      by rewrite Ho1, Hob.
Qed.

(** *** The typed accessor *)

Lemma GetContext_cached_none T e cv updated w :
  objs w !! e = Some cv ->
  updated = true \/ Value cv = None ->
  GetContext_cached T (Some e) updated w = Done None w.
Proof.
  intros Ho H. unfold GetContext_cached. simpl. rewrite Ho. simpl.
  destruct H as [->| ->]; [by rewrite andb_false_r | done].
Qed.

Lemma GetContext_cached_some T e cv p w :
  objs w !! e = Some cv ->
  Value cv = Some (T, p) ->
  GetContext_cached T (Some e) false w = Done (Some p) w.
Proof.
  intros Ho Hv. unfold GetContext_cached. simpl. rewrite Ho. simpl. rewrite Hv. simpl.
  by rewrite decide_True.
Qed.

Lemma GetContext_decode_run T ctx e cv updated w :
  lock (cache w) = unlockedMutex ->
  context_error ctx (clock w) = None ->
  objs w !! e = Some cv ->
  updated = true \/ Value cv = None ->
  GetContext_decode json_Unmarshal T ctx (Some e) updated w
  = match json_Unmarshal T (Raw cv) with
    | inl v => Done (Some (length (decoded w)), None) (decoded_into w T e cv v)
    | inr msg => Done (None, Some (UnmarshalError msg)) (log (EvUnmarshal (Raw cv)) w)
    end.
Proof.
  intros Hl Hc Ho H.
  destruct w as [[dir l m tmo] o d fs c tr];
    unfold decoded_into, unlockedMutex in *; simpl in *; subst.
  unfold GetContext_decode. simpl. rewrite context_error_run. simpl. rewrite Hc. simpl.
  rewrite Ho. simpl.
  assert (Hb : bool_decide (Value cv ≠ None) && negb updated = false).
  { destruct H as [->| ->]; [by rewrite andb_false_r | done]. }
  rewrite Hb. simpl.
  destruct (json_Unmarshal T (Raw cv)) as [v|msg]; simpl; [|done].
  rewrite Ho. simpl. done.
Qed.

(** A typed get that reloads the Entry decodes the new bytes. *)
Lemma GetContext_reload T ctx name w f :
  lock (cache w) = unlockedMutex ->
  context_error ctx (clock w) = None ->
  no_dangling w ->
  fresh w name = false ->
  files w !! getPath w name = Some f ->
  Readable f = true ->
  lastUpdate w name < ModTime f ->
  let w1 := reloaded (log (EvStat (getPath w name)) w) name (getPath w name) (Data f) in
  let cv := mkConfigValue (clock w) None (Data f) in
  GetContext json_Unmarshal T ctx name w
  = match json_Unmarshal T (Data f) with
    | inl v => Done (Some (length (decoded w)), None)
                    (decoded_into w1 T (length (objs w)) cv v)
    | inr msg => Done (None, Some (UnmarshalError msg)) (log (EvUnmarshal (Data f)) w1)
    end.
Proof.
  intros Hl Hc Hd Hfr Hf Hr Ht w1 cv.
  unfold GetContext. simpl.
  rewrite (verboseGet_reload ctx name w f) by done. simpl. fold w1.
  assert (Ho : objs w1 !! length (objs w) = Some cv) by apply reloaded_after_stat.
  rewrite (GetContext_cached_none T _ cv true w1 Ho) by auto. simpl.
  assert (Hdec : decoded w1 = decoded w) by (by destruct w).
  assert (Hl1 : lock (cache w1) = unlockedMutex).
  { subst w1. destruct w as [[dir l m tmo] o d fs c tr]; simpl in *. by subst. }
  assert (Hc1 : context_error ctx (clock w1) = None).
  { subst w1. by destruct w. }
  rewrite (GetContext_decode_run T ctx _ cv true w1 Hl1 Hc1 Ho) by auto.
  by rewrite Hdec.
Qed.

Lemma decoded_into_value w T e cv v :
  decoded (decoded_into w T e cv v) !! length (decoded w) = Some v
  /\ forall p u, decoded w !! p = Some u -> decoded (decoded_into w T e cv v) !! p = Some u.
Proof.
  destruct w as [ch o d fs c tr]; unfold decoded_into; simpl. split.
  - rewrite lookup_app_r by done. by rewrite Nat.sub_diag.
  - intros p u H. by apply lookup_app_l_Some.
Qed.


(** X9. Inside the freshness window a typed get is served from the
    slot: after a get has returned [p], every later get of the same type
    returns [p] again and leaves the world as it is (no lock taken for
    writing, no file touched, nothing decoded). *)
Theorem typed_get_repeats_pointer T ctx ctx' name w p err w1 w2 :
  GetContext json_Unmarshal T ctx name w = Done (Some p, err) w1 ->
  same_memory w1 w2 ->
  writer (lock (cache w2)) = false ->
  fresh w2 name = true ->
  context_error ctx' (clock w2) = None ->
  GetContext json_Unmarshal T ctx' name w2 = Done (Some p, None) w2.
Proof.
  intros H (Hc & Ho & _) Hl Hfr Hctx.
  apply GetContext_slot in H as (_ & e & cv & Hm & Hob & Hv).
  rewrite <- Hc in Hm. rewrite <- Ho in Hob.
  unfold GetContext. simpl.
  rewrite (verboseGet_fast ctx' name w2 e cv); try done.
  - simpl. by rewrite (GetContext_cached_some T e cv p w2).
  - unfold fresh, entry in Hfr. rewrite Hm, Hob in Hfr. by apply Z.ltb_lt.
Qed.

(** X10. A reload starts again from the bytes: once the file is newer
    than the Entry and the window has passed, a typed get of any type
    [U], the type of the earlier gets or another one, decodes the new
    bytes into a new value; the pointers handed out before still point
    to the old values. *)
Theorem reload_decodes_into_a_new_value (U : GoType) name w f v :
  lock (cache w) = unlockedMutex ->
  no_dangling w ->
  fresh w name = false ->
  files w !! getPath w name = Some f ->
  Readable f = true ->
  lastUpdate w name < ModTime f ->
  json_Unmarshal U (Data f) = inl v ->
  exists w',
    Get json_Unmarshal U name w = Done (Some (length (decoded w)), None) w'
    /\ decoded w' !! length (decoded w) = Some v
    /\ (forall p u, decoded w !! p = Some u -> decoded w' !! p = Some u)
    /\ (forall e cv, objs w !! e = Some cv -> objs w' !! e = Some cv).
Proof.
  intros Hl Hd Hfr Hf Hr Ht Hu.
  unfold Get. rewrite (GetContext_reload U Background name w f) by done.
  rewrite Hu. eexists. split; [done|].
  set (w1 := reloaded _ _ _ _).
  assert (Hdx : decoded w1 = decoded w) by (by destruct w).
  assert (Hox : objs w1 = objs w ++ [mkConfigValue (clock w) None (Data f)])
    by (by destruct w).
  destruct (decoded_into_value w1 U (length (objs w))
              (mkConfigValue (clock w) None (Data f)) v) as [H1 H2].
  rewrite Hdx in H1, H2. split_and!; [done | done |].
  intros e cv He.
  assert (Hlt : (e < length (objs w))%nat) by (by eapply lookup_lt_Some).
  destruct w1 as [ch o1 d1 fs1 c1 tr1]; unfold decoded_into; simpl in *. subst o1.
  rewrite list_lookup_insert_ne by lia. by apply lookup_app_l_Some.
Qed.

(** X11. A decode that fails is not remembered: the typed get returns
    the error of [json.Unmarshal], the slot stays empty, and the next
    get of the name unmarshals the same bytes again. *)
Theorem decode_failure_is_retried T name w p cv msg :
  lock (cache w) = unlockedMutex ->
  configs (cache w) !! name = Some p ->
  objs w !! p = Some cv ->
  Value cv = None ->
  time_Sub (clock w) (LastUpdate cv) < syncTimeout (cache w) ->
  json_Unmarshal T (Raw cv) = inr msg ->
  let w1 := log (EvUnmarshal (Raw cv)) w in
  Get json_Unmarshal T name w = Done (None, Some (UnmarshalError msg)) w1
  /\ objs w1 !! p = Some cv
  /\ Get json_Unmarshal T name w1
     = Done (None, Some (UnmarshalError msg)) (log (EvUnmarshal (Raw cv)) w1).
Proof.
  intros Hl Hm Ho Hv Ht Hu w1.
  assert (Hget : forall w0, lock (cache w0) = unlockedMutex ->
            configs (cache w0) !! name = Some p -> objs w0 !! p = Some cv ->
            time_Sub (clock w0) (LastUpdate cv) < syncTimeout (cache w0) ->
            Get json_Unmarshal T name w0
            = Done (None, Some (UnmarshalError msg)) (log (EvUnmarshal (Raw cv)) w0)).
  { intros w0 Hl0 Hm0 Ho0 Ht0. unfold Get, GetContext. simpl.
    rewrite (verboseGet_fast Background name w0 p cv); try done; [|by rewrite Hl0].
    simpl. rewrite (GetContext_cached_none T p cv false w0) by auto. simpl.
    rewrite (GetContext_decode_run T Background p cv false w0) by auto.
    by rewrite Hu. }
  destruct (log_facts (EvUnmarshal (Raw cv)) w) as (Hc1 & Ho1 & _ & _ & Hk1 & _).
  split_and!.
  - by apply Hget.
  - subst w1. by rewrite Ho1.
  - apply Hget; subst w1; by rewrite ?Hc1, ?Ho1, ?Hk1.
Qed.

(** *** Edges *)

(** X12. The one way to a nil Entry without an error: the name is not
    in the mapping and the file's modification time is not after Go's
    zero time.  The raw get returns neither bytes nor an error, and has
    only stat-ed the file; the typed get dereferences the nil Entry and
    panics. *)
Theorem unloaded_name_with_ancient_file T name w f :
  writer (lock (cache w)) = false ->
  configs (cache w) !! name = None ->
  files w !! getPath w name = Some f ->
  ModTime f <= zeroTime ->
  let w' := log (EvStat (getPath w name)) w in
  Cache_Get name w = Done (None, None) w'
  /\ Get json_Unmarshal T name w = Panicked NilDereference w'.
Proof.
  intros Hl Hm Hf Ht.
  destruct w as [[dir [r wr] m tmo] o d fs c tr]; unfold getPath in *; simpl in *; subst.
  assert (Ha : time_After (ModTime f) zeroTime = false)
    by (unfold time_After; apply Z.ltb_ge; lia).
  unfold Cache_Get, Cache_GetContext, Get, GetContext, verboseGet, verboseGet_shared.
  split; run; done.
Qed.

Lemma verboseGet_shared_stale name w r w1 :
  fresh w name = false ->
  no_dangling w ->
  verboseGet_shared Background name w = Done r w1 ->
  trace w1 = trace w ++ [EvStat (getPath w name)].
Proof.
  destruct w as [[dir [rd wr] m tmo] o d fs c tr].
  unfold verboseGet_shared, fresh, entry, getPath, no_dangling. simpl.
  intros Hfr Hd H.
  destruct (m !! name) as [p|] eqn:Hm; simpl in *.
  - destruct (Hd _ _ Hm) as [cv Ho]. rewrite Ho in *. simpl in *.
    returned; try done; congruence.
  - returned; try done; congruence.
Qed.

(** X13. With a sync timeout that is not positive there is no fast
    path: every get of a loaded name asks the file system. *)
Theorem nonpositive_timeout_always_stats name w r w' :
  syncTimeout (cache w) <= 0 ->
  timely w ->
  Cache_Get name w = Done r w' ->
  exists t, trace w' = trace w ++ EvStat (getPath w name) :: t.
Proof.
  intros Hto Htim H.
  assert (Hd : no_dangling w).
  { intros n p Hn. destruct (Htim _ _ Hn) as (cv & Hcv & _). by eexists. }
  assert (Hfr : fresh w name = false).
  { unfold fresh, entry. destruct (configs (cache w) !! name) as [p|] eqn:Hm; [|done].
    destruct (Htim _ _ Hm) as (cv & -> & Hle). apply Z.ltb_ge.
    unfold time_Sub, minDuration, maxDuration.
    repeat case_match; lia. }
  unfold Cache_Get, Cache_GetContext, verboseGet in H. simpl in H.
  destruct (verboseGet_shared Background name w) as [s w1| | |] eqn:Hs; try done.
  pose proof (verboseGet_shared_stale name w s w1 Hfr Hd Hs) as Htr.
  destruct s as [[[cfg u] err]|[path modTime]]; simpl in H.
  - exists []. destruct err; [by injection H as <- <-|].
    destruct cfg as [e|]; simpl in H; [|by injection H as <- <-].
    destruct (objs w1 !! e); simpl in H; [|done]. by injection H as <- <-.
  - destruct (verboseGet_exclusive Background name path modTime w1)
      as [[[cfg u] err] w2| | |] eqn:He; try done.
    apply verboseGet_exclusive_trace in He as [_ Ht2]. simpl in H.
    assert (Hw : w' = w2).
    { destruct err; [by injection H as <- <-|].
      destruct cfg as [e|]; simpl in H; [|by injection H as <- <-].
      destruct (objs w2 !! e); simpl in H; [|done]. by injection H as <- <-. }
    subst w'. destruct Ht2 as [-> | ->]; rewrite Htr.
    + by exists [].
    + rewrite <- app_assoc. by eexists.
Qed.

(** X14. A context that is already over stops every call at its first
    test: the call returns the error of the context and the world is
    what it was (no stat, no read, no write, nothing decoded, the lock
    free again), even for a name that is cached and fresh. *)
Theorem finished_context_touches_nothing T ctx name data w e :
  lock (cache w) = unlockedMutex ->
  context_error ctx (clock w) = Some e ->
  Cache_GetContext ctx name w = Done (None, Some e) w
  /\ GetContext json_Unmarshal T ctx name w = Done (None, Some e) w
  /\ Cache_UpdateContext ctx name data w = Done (Some e) w.
Proof.
  intros Hl Hc.
  destruct w as [[dir l m tmo] o d fs c tr]; unfold unlockedMutex in *; simpl in *; subst.
  unfold Cache_GetContext, GetContext, Cache_UpdateContext, verboseGet, verboseGet_shared.
  simpl. rewrite !context_error_run. simpl. rewrite Hc. simpl. done.
Qed.

(** X15. A context that ends while a call is between its two locked
    sections stops it as soon as it holds the lock: [verboseGet] does
    not read the file and installs nothing, [GetContext[T]] does not
    decode; the lock is released in the ordinary way. *)
Theorem context_ends_between_the_locks T ctx name path modTime cfg updated w e :
  lock (cache w) = unlockedMutex ->
  context_error ctx (clock w) = Some e ->
  verboseGet_exclusive ctx name path modTime w = Done (None, false, Some e) w
  /\ GetContext_decode json_Unmarshal T ctx cfg updated w = Done (None, Some e) w.
Proof.
  intros Hl Hc.
  destruct w as [[dir l m tmo] o d fs c tr]; unfold unlockedMutex in *; simpl in *; subst.
  unfold verboseGet_exclusive, GetContext_decode.
  simpl. rewrite !context_error_run. simpl. rewrite Hc. simpl. done.
Qed.

(** *** What a typed get returns *)

(** X16. The pointer a typed get returns points to the decoding, as [T],
    of the bytes of the Entry the mapping holds for the name. *)
Theorem typed_get_points_to_decoded_entry T ctx name w p err w' :
  well_formed json_Unmarshal w ->
  GetContext json_Unmarshal T ctx name w = Done (Some p, err) w' ->
  err = None
  /\ exists cv v, entry w' name = Some cv /\ decoded w' !! p = Some v
                  /\ json_Unmarshal T (Raw cv) = inl v.
Proof.
  intros Hw H. pose proof (ensures_GetContext json_Unmarshal T ctx name w) as Hk.
  rewrite H in Hk. destruct (Hk Hw) as [_ (_ & _ & Hsl)].
  apply GetContext_slot in H as (-> & e & cv & Hm & Ho & Hv).
  split; [done|]. destruct (Hsl _ _ _ _ Ho Hv) as (v & Hd & Hu).
  exists cv, v. unfold entry. rewrite Hm. done.
Qed.

End Composition.

(** ** The HTTP handlers *)

Section WebProperties.
Context {GoType : Type} `{!EqDecision GoType} {JVal : Type}.
Variable Decode_RequestSchema : Request -> string * Request + string.
Variable json_Valid : bytes -> bool.
Variable error_Error : error -> string.
Variable Marshal_ResponseError : string -> bytes.
Implicit Types (w : @World GoType JVal) (rw : ResponseWriter) (req : Request).

Lemma named_request req :
  query_config req <> EmptyString -> String.eqb (query_config req) EmptyString = false.
Proof. intros H. by apply String.eqb_neq. Qed.

Lemma respond_error_fresh code msg rw :
  status rw = None -> broken rw = None ->
  respond_error Marshal_ResponseError code msg rw
  = (None, mkResponseWriter (Some code) (sent rw ++ Marshal_ResponseError msg) None).
Proof.
  intros Hs Hb. unfold respond_error, rw_Write, rw_WriteHeader.
  rewrite Hs. simpl. rewrite Hb. done.
Qed.

(** X17. The get handler never takes the name from the body.  Without a
    [config] parameter in the query it decodes the body and then fails:
    with status 400 when the body does not decode, and otherwise, name
    in the body or not, with the error "request config name not found"
    and nothing written to the response.  The store is not consulted. *)
Theorem handler_get_ignores_name_in_body ctx rw req w :
  query_config req = EmptyString ->
  status rw = None -> broken rw = None ->
  HandlerGetVerbose Decode_RequestSchema error_Error Marshal_ResponseError
    ctx rw req w
  = match Decode_RequestSchema req with
    | inl _ => Done (Some GetNameNotFound, rw) w
    | inr err =>
      Done (Some (GetParsingName err None),
            mkResponseWriter (Some StatusBadRequest)
                             (sent rw ++ Marshal_ResponseError err) None) w
    end.
Proof.
  intros Hq Hs Hb. unfold HandlerGetVerbose. rewrite Hq. simpl.
  destruct (Decode_RequestSchema req) as [[cfg req']|err]; [done|].
  by rewrite respond_error_fresh.
Qed.

(** X18. The get handler answers from the store, whatever the context
    it is given: status 200 and the raw bytes when [cache.Get] returns
    them, status 500 and the error as JSON when it returns an error; and
    when [cache.Get] does not return, the handler does not either. *)
Theorem handler_get_answers_from_the_store ctx rw req w :
  query_config req <> EmptyString ->
  status rw = None -> broken rw = None ->
  HandlerGetVerbose Decode_RequestSchema error_Error Marshal_ResponseError
    ctx rw req w
  = match Cache_Get (query_config req) w with
    | Done (data, None) w' =>
      Done (None, mkResponseWriter (Some StatusOK) (sent rw ++ default [] data) None) w'
    | Done (_, Some e) w' =>
      Done (Some (GetFindingConfig e None),
            mkResponseWriter (Some StatusInternalServerError)
                             (sent rw ++ Marshal_ResponseError (error_Error e)) None) w'
    | Panicked p w' => Panicked p w'
    | Fatal f => Fatal f
    | Blocked => Blocked
    end.
Proof.
  intros Hq Hs Hb. unfold HandlerGetVerbose.
  rewrite (named_request req Hq). simpl.
  destruct (Cache_Get (query_config req) w) as [[data [e|]] w'| | |]; simpl; try done.
  - by rewrite respond_error_fresh.
  - unfold rw_Write, rw_WriteHeader. rewrite Hs. simpl. by rewrite Hb.
Qed.

Lemma Cache_Get_unreadable name w f :
  lock (cache w) = unlockedMutex ->
  no_dangling w ->
  fresh w name = false ->
  files w !! getPath w name = Some f ->
  lastUpdate w name < ModTime f ->
  Readable f = false ->
  Cache_Get name w = Fatal RUnlockOfUnlocked.
Proof.
  intros Hl Hwf Hfr Hf Hlt Hr.
  pose proof (exclusive_read_error_fatal
                (log (EvStat (getPath w name)) w) name (getPath w name) (ModTime f)) as HX.
  destruct w as [[dir l m tmo] o d fs c tr];
    unfold getPath, fresh, lastUpdate, entry, no_dangling, unlockedMutex in *;
    simpl in *; subst.
  assert (Ha : forall t, t < ModTime f -> time_After (ModTime f) t = true)
    by (intros; unfold time_After; apply Z.ltb_lt; lia).
  rewrite Hf, Hr in HX.
  unfold Cache_Get, Cache_GetContext, verboseGet, verboseGet_shared. simpl.
  destruct (m !! name) as [p|] eqn:Hm; simpl.
  - destruct (Hwf _ _ Hm) as [cv Ho]. rewrite Ho in *.
    specialize (Ha _ Hlt). run. rewrite HX; done.
  - specialize (Ha _ Hlt). run. rewrite HX; done.
Qed.


(** X20. A body that is not valid JSON is refused with status 400
    before the store is touched: no lock is taken and no file written. *)
Theorem handler_update_refuses_invalid_json ctx rw req w :
  query_config req <> EmptyString ->
  status rw = None -> broken rw = None ->
  body_error req = None ->
  json_Valid (req_body req) = false ->
  HandlerUpdateVerbose Decode_RequestSchema json_Valid error_Error
    Marshal_ResponseError ctx rw req w
  = Done (Some (UpdateParsingBody None),
          mkResponseWriter (Some StatusBadRequest)
            (sent rw ++ Marshal_ResponseError "config sent is invalid as json") None) w.
Proof.
  intros Hq Hs Hb He Hv. unfold HandlerUpdateVerbose.
  rewrite (named_request req Hq). unfold io_ReadAll. rewrite He, Hv. simpl.
  by rewrite respond_error_fresh.
Qed.

(** X21. The update handler does not take the name from the body
    either, and does not ask for one: without a [config] parameter in
    the query, whatever it writes it writes under the empty name, to
    the file [.json] of the directory. *)
Theorem handler_update_without_name ctx rw req w :
  query_config req = EmptyString ->
  lock (cache w) = unlockedMutex ->
  exists r rw' w',
    HandlerUpdateVerbose Decode_RequestSchema json_Valid error_Error
    Marshal_ResponseError ctx rw req w = Done (r, rw') w'
    /\ (w' = w
        \/ exists data,
             trace w' = trace w ++ [EvWriteFile (updatePath w EmptyString) data]).
Proof.
  intros Hq Hl. unfold HandlerUpdateVerbose. rewrite Hq. simpl.
  destruct (Decode_RequestSchema req) as [[cfg req']|err].
  - destruct (io_ReadAll req') as [bodyData|err].
    + destruct (json_Valid bodyData); simpl.
      * destruct (Cache_Update_trace w EmptyString bodyData Hl)
          as (err & w' & HU & _ & Htr).
        rewrite HU. simpl. destruct err as [e|].
        -- destruct (respond_error _ _ _ rw). eexists _, _, _. split; [done|].
           right. by eexists.
        -- eexists _, _, _. split; [done|]. right. by eexists.
      * destruct (respond_error _ _ _ rw). eexists _, _, _. split; [done|]. by left.
    + destruct (respond_error _ _ _ rw). eexists _, _, _. split; [done|]. by left.
  - destruct (respond_error _ _ _ rw). eexists _, _, _. split; [done|]. by left.
Qed.


End WebProperties.

(** ** The HTTP client *)

Section ClientProperties.

Lemma length_append_string (a b : string) :
  String.length (a +:+ b) = (String.length a + String.length b)%nat.
Proof. induction a as [|c a IH]; simpl; [done|]. by rewrite IH. Qed.

Lemma substring_all (s : string) : substring 0 (String.length s) s = s.
Proof. induction s as [|c s IH]; simpl; [done|]. by rewrite IH. Qed.

Lemma substring_prefix (a b : string) : substring 0 (String.length a) (a +:+ b) = a.
Proof.
  induction a as [|c a IH]; simpl; [by destruct b|]. by rewrite IH.
Qed.

Lemma substring_suffix (a b : string) :
  substring (String.length a) (String.length b) (a +:+ b) = b.
Proof. induction a as [|c a IH]; simpl; [apply substring_all | done]. Qed.

Lemma TrimSuffix_append (h suffix : string) : TrimSuffix (h +:+ suffix) suffix = h.
Proof.
  unfold TrimSuffix, HasSuffix. rewrite length_append_string.
  replace (String.length h + String.length suffix - String.length suffix)%nat
    with (String.length h) by lia.
  rewrite substring_suffix, String.eqb_refl, substring_prefix.
  assert (H : (String.length suffix <=? String.length h + String.length suffix)%nat = true)
    by (apply Nat.leb_le; lia).
  by rewrite H.
Qed.

Lemma Client_init_first c :
  client_lock c = unlockedMutex ->
  initialized c = false ->
  Client_init c
  = Some (mkClient (TrimSuffix (Host c) "/") DefaultWebUrlGet DefaultWebUrlUpdate
                   (Some DefaultClient) unlockedMutex true).
Proof.
  destruct c as [h g u cl l i]; simpl. intros -> ->. reflexivity.
Qed.

Lemma Client_init_again c :
  writer (client_lock c) = false ->
  initialized c = true ->
  Client_init c = Some (with_lock (mkRWMutex (S (readers (client_lock c))) false) c).
Proof.
  destruct c as [h g u cl [r wr] i]; simpl. intros -> ->. reflexivity.
Qed.

Lemma init_times_again n : forall c,
  writer (client_lock c) = false ->
  initialized c = true ->
  init_times n c
  = Some (with_lock (mkRWMutex (n + readers (client_lock c)) false) c).
Proof.
  induction n as [|n IH]; intros c Hl Hi.
  - destruct c as [h g u cl [r wr] i]; simpl in *. by subst.
  - simpl. rewrite Client_init_again by done.
    rewrite IH by (by destruct c).
    destruct c as [h g u cl [r wr] i]; simpl in *.
    unfold with_lock; simpl. do 3 f_equal. lia.
Qed.

(** X23. Every call of a method of an initialized client leaves the
    client's lock held for reading once more: after [n] calls there are
    [n] more readers than before, and nothing else has changed.  The
    read lock taken on the way in is not given back. *)
Theorem client_init_keeps_the_read_lock c n :
  writer (client_lock c) = false ->
  initialized c = true ->
  exists c',
    init_times n c = Some c'
    /\ readers (client_lock c') = (n + readers (client_lock c))%nat
    /\ writer (client_lock c') = false
    /\ (Host c', UrlGet c', UrlUpdate c', HttpClient c', initialized c')
       = (Host c, UrlGet c, UrlUpdate c, HttpClient c, initialized c).
Proof.
  intros Hl Hi. eexists. split; [by apply init_times_again|].
  by destruct c.
Qed.

(** X24. The first call settles the settings, and not as the caller set
    them: whatever [UrlGet], [UrlUpdate] and [Client] held, after any
    number of calls they are the defaults; of the slashes that end
    [Host] one is removed, once. *)
Theorem client_init_overrides_settings c n h :
  client_lock c = unlockedMutex ->
  initialized c = false ->
  Host c = h +:+ "/" ->
  exists c',
    init_times (S n) c = Some c'
    /\ UrlGet c' = DefaultWebUrlGet
    /\ UrlUpdate c' = DefaultWebUrlUpdate
    /\ HttpClient c' = Some DefaultClient
    /\ Host c' = h.
Proof.
  intros Hl Hi Hh. simpl. rewrite Client_init_first by done.
  rewrite init_times_again by done. eexists. split; [done|].
  simpl. split_and!; try done. rewrite Hh. apply TrimSuffix_append.
Qed.

End ClientProperties.

(** ** The further properties on the test data *)

Lemma cold_well_formed : well_formed test_Unmarshal cold.
Proof.
  split_and!.
  - intros name p H. simpl in H. by rewrite lookup_empty in H.
  - intros name p H. simpl in H. by rewrite lookup_empty in H.
  - intros e cv T p H. simpl in H. by rewrite lookup_nil in H.
Qed.

Lemma loaded_well_formed : well_formed test_Unmarshal loaded.
Proof.
  split_and!.
  - intros name p H. simpl in H. apply lookup_singleton_Some in H as [_ <-]. by eexists.
  - intros name p H. simpl in H. apply lookup_singleton_Some in H as [_ <-].
    eexists. split; [reflexivity|]. simpl. lia.
  - intros e cv T p H HV. simpl in H. destruct e as [|e]; simpl in H; [|done].
    injection H as <-. simpl in HV. injection HV as <- <-.
    exists document. split; reflexivity.
Qed.

Lemma basic_program_returns :
  exists w', execute_all test_Unmarshal test_Marshal basic_program cold = Done tt w'.
Proof. eexists. vm_compute. reflexivity. Qed.

Lemma calls_release_the_lock_witness :
  exists w', execute_all test_Unmarshal test_Marshal basic_program cold = Done tt w'
             /\ lock (cache w') = lock (cache cold).
Proof.
  pose proof (calls_release_the_lock test_Unmarshal test_Marshal basic_program cold
                cold_well_formed) as H.
  destruct basic_program_returns as [w' E]. rewrite E in H.
  exists w'. split; [exact E | exact H].
Defined.

Lemma stats_lists_the_mapping_witness :
  exists st,
    Cache_Stats loaded = Done st loaded
    /\ Directory st = "testdata"%string
    /\ NoDup (Configs st)
    /\ forall name, name ∈ Configs st <-> is_Some (configs (cache loaded) !! name).
Proof. apply (stats_lists_the_mapping loaded). reflexivity. Defined.

Lemma loaded_names_stay_witness :
  exists w' st',
    execute_all test_Unmarshal test_Marshal basic_program loaded = Done tt w'
    /\ Cache_Stats w' = Done st' w'
    /\ forall name, name ∈ ["config_name"%string] -> name ∈ Configs st'.
Proof.
  pose proof (loaded_names_stay test_Unmarshal test_Marshal basic_program loaded
                (mkStats "testdata" ["config_name"%string]) loaded_well_formed) as H.
  assert (E : exists w', execute_all test_Unmarshal test_Marshal basic_program loaded
                         = Done tt w') by (eexists; vm_compute; reflexivity).
  destruct E as [w' E]. rewrite E in H.
  destruct H as (st' & H1 & H2); [vm_compute; reflexivity|].
  exists w', st'. split; [exact E|]. split; [exact H1 | exact H2].
Defined.

Lemma results_are_never_overwritten_witness :
  exists w',
    execute_all test_Unmarshal test_Marshal basic_program loaded = Done tt w'
    /\ decoded w' !! 0%nat = Some document
    /\ exists cv', objs w' !! 0%nat = Some cv'
                   /\ Raw cv' = document /\ LastUpdate cv' = 100.
Proof.
  pose proof (results_are_never_overwritten test_Unmarshal test_Marshal basic_program
                loaded loaded_well_formed) as H.
  assert (E : exists w', execute_all test_Unmarshal test_Marshal basic_program loaded
                         = Done tt w') by (eexists; vm_compute; reflexivity).
  destruct E as [w' E]. rewrite E in H. destruct H as [Hv He].
  exists w'. split; [exact E|]. split.
  - apply Hv. reflexivity.
  - apply (He 0%nat (mkConfigValue 100 (Some (ConfigNameT, 0%nat)) document)).
    reflexivity.
Defined.

Lemma typed_get_points_to_decoded_entry_witness :
  exists cv v, entry loaded "config_name" = Some cv /\ decoded loaded !! 0%nat = Some v
               /\ test_Unmarshal ConfigNameT (Raw cv) = inl v.
Proof.
  refine (proj2 (typed_get_points_to_decoded_entry test_Unmarshal ConfigNameT Background
                   "config_name" cold 0%nat None loaded cold_well_formed _)).
  vm_compute. reflexivity.
Defined.


Lemma update_unseen_inside_window_witness :
  Cache_Get "config_name"
    (set_clock 200 (written (warm 150 None testdata) "config_name" document2))
  = Done (Some document, None)
      (set_clock 200 (written (warm 150 None testdata) "config_name" document2)).
Proof.
  apply (update_unseen_inside_window (warm 150 None testdata) "config_name" document2
           0%nat (mkConfigValue 100 None document) None
           (written (warm 150 None testdata) "config_name" document2) 200).
  - reflexivity.
  - reflexivity.
  - vm_compute. reflexivity.
  - vm_compute. reflexivity.
Defined.

Lemma update_at_load_instant_unseen_witness :
  Cache_Update "config_name" document2 (warm 100 None testdata)
  = Done None (written (warm 100 None testdata) "config_name" document2)
  /\ exists w2,
       Cache_Get "config_name"
         (set_clock (100 + 2 * Minute)
            (written (warm 100 None testdata) "config_name" document2))
       = Done (Some document, None) w2.
Proof.
  apply (update_at_load_instant_unseen (warm 100 None testdata) "config_name" document2
           0%nat (mkConfigValue 100 None document) (100 + 2 * Minute)).
  - reflexivity.
  - reflexivity.
  - reflexivity.
  - reflexivity.
  - intros f H. vm_compute in H. injection H as <-. reflexivity.
  - simpl. lia.
Defined.


Lemma typed_get_repeats_pointer_witness :
  GetContext test_Unmarshal ConfigNameT (WithDeadline 500) "config_name" loaded
  = Done (Some 0%nat, None) loaded.
Proof.
  apply (typed_get_repeats_pointer test_Unmarshal ConfigNameT Background (WithDeadline 500)
           "config_name" cold 0%nat None loaded loaded).
  - vm_compute. reflexivity.
  - exact (conj eq_refl (conj eq_refl eq_refl)).
  - reflexivity.
  - vm_compute. reflexivity.
  - vm_compute. reflexivity.
Defined.

Lemma reload_decodes_into_a_new_value_witness :
  let w := warm (100 + 2 * Minute) (Some (ConfigNameT, 0%nat)) edited in
  exists w',
    Get test_Unmarshal MapStringString "config_name" w = Done (Some 1%nat, None) w'
    /\ decoded w' !! 1%nat = Some document2
    /\ (forall p u, decoded w !! p = Some u -> decoded w' !! p = Some u)
    /\ (forall e cv, objs w !! e = Some cv -> objs w' !! e = Some cv).
Proof.
  apply (reload_decodes_into_a_new_value test_Unmarshal MapStringString "config_name"
           (warm (100 + 2 * Minute) (Some (ConfigNameT, 0%nat)) edited)
           (mkFile 150 document2 true true) document2).
  - reflexivity.
  - apply warm_no_dangling.
  - vm_compute. reflexivity.
  - vm_compute. reflexivity.
  - reflexivity.
  - vm_compute. reflexivity.
  - reflexivity.
Defined.

Lemma decode_failure_is_retried_witness :
  let w1 := log (EvUnmarshal garbage) garbled in
  let err := UnmarshalError "invalid character looking for beginning of value" in
  Get test_Unmarshal ConfigNameT "config_name" garbled = Done (None, Some err) w1
  /\ objs w1 !! 0%nat = Some (mkConfigValue 100 None garbage)
  /\ Get test_Unmarshal ConfigNameT "config_name" w1
     = Done (None, Some err) (log (EvUnmarshal garbage) w1).
Proof.
  apply (decode_failure_is_retried test_Unmarshal ConfigNameT "config_name" garbled 0%nat
           (mkConfigValue 100 None garbage)
           "invalid character looking for beginning of value").
  - reflexivity.
  - reflexivity.
  - reflexivity.
  - reflexivity.
  - vm_compute. reflexivity.
  - reflexivity.
Defined.

Lemma unloaded_name_with_ancient_file_witness :
  let w := mkWorld (NewCache "testdata") [] [] ancient 100 [] in
  let w' := log (EvStat (getPath w "config_name")) w in
  Cache_Get "config_name" w = Done (None, None) w'
  /\ Get test_Unmarshal ConfigNameT "config_name" w = Panicked NilDereference w'.
Proof.
  apply (unloaded_name_with_ancient_file test_Unmarshal ConfigNameT "config_name"
           (mkWorld (NewCache "testdata") [] [] ancient 100 [])
           (mkFile 0 document true true)).
  - reflexivity.
  - reflexivity.
  - vm_compute. reflexivity.
  - vm_compute. discriminate.
Defined.

Lemma nonpositive_timeout_always_stats_witness :
  exists t, trace (log (EvStat (getPath impatient "config_name")) impatient)
            = trace impatient ++ EvStat (getPath impatient "config_name") :: t.
Proof.
  apply (nonpositive_timeout_always_stats "config_name" impatient
           (Some document, None)
           (log (EvStat (getPath impatient "config_name")) impatient)).
  - simpl. lia.
  - intros name p H. simpl in H. apply lookup_singleton_Some in H as [_ <-].
    eexists. split; [reflexivity|]. simpl. lia.
  - vm_compute. reflexivity.
Defined.

Lemma finished_context_touches_nothing_witness :
  Cache_GetContext (WithCancel true) "config_name" loaded = Done (None, Some Canceled) loaded
  /\ GetContext test_Unmarshal ConfigNameT (WithCancel true) "config_name" loaded
     = Done (None, Some Canceled) loaded
  /\ Cache_UpdateContext (WithCancel true) "config_name" document2 loaded
     = Done (Some Canceled) loaded.
Proof.
  apply (finished_context_touches_nothing test_Unmarshal ConfigNameT (WithCancel true)
           "config_name" document2 loaded Canceled); reflexivity.
Defined.

Lemma context_ends_between_the_locks_witness :
  let w := warm 200 None edited in
  verboseGet_exclusive (WithDeadline 150) "config_name" "testdata/config_name.json" 150 w
  = Done (None, false, Some DeadlineExceeded) w
  /\ GetContext_decode test_Unmarshal ConfigNameT (WithDeadline 150) (Some 0%nat) false w
     = Done (None, Some DeadlineExceeded) w.
Proof.
  apply (context_ends_between_the_locks test_Unmarshal ConfigNameT (WithDeadline 150)
           "config_name" "testdata/config_name.json" 150 (Some 0%nat) false
           (warm 200 None edited) DeadlineExceeded); reflexivity.
Defined.

Lemma handler_get_ignores_name_in_body_witness :
  HandlerGetVerbose test_Decode test_Error test_ResponseError Background
    new_response unnamed_request cold
  = Done (Some GetNameNotFound, new_response) cold.
Proof.
  apply (handler_get_ignores_name_in_body test_Decode test_Error test_ResponseError
           Background new_response unnamed_request cold); reflexivity.
Defined.

Lemma handler_get_answers_from_the_store_witness :
  HandlerGetVerbose test_Decode test_Error test_ResponseError (WithCancel true)
    new_response get_request loaded
  = Done (None, mkResponseWriter (Some StatusOK) document None) loaded.
Proof.
  refine (eq_trans
    (handler_get_answers_from_the_store test_Decode test_Error test_ResponseError
       (WithCancel true) new_response get_request loaded _ eq_refl eq_refl) _).
  - discriminate.
  - vm_compute. reflexivity.
Defined.


Lemma handler_update_refuses_invalid_json_witness :
  HandlerUpdateVerbose test_Decode test_Valid test_Error test_ResponseError Background
    new_response (mkRequest "config_name" garbage None) cold
  = Done (Some (UpdateParsingBody None),
          mkResponseWriter (Some StatusBadRequest)
            (test_ResponseError "config sent is invalid as json") None) cold.
Proof.
  apply (handler_update_refuses_invalid_json test_Decode test_Valid test_Error
           test_ResponseError Background new_response
           (mkRequest "config_name" garbage None) cold).
  - discriminate.
  - reflexivity.
  - reflexivity.
  - reflexivity.
  - reflexivity.
Defined.

Lemma handler_update_without_name_witness :
  exists r rw' w',
    HandlerUpdateVerbose test_Decode test_Valid test_Error test_ResponseError Background
      new_response unnamed_request cold = Done (r, rw') w'
    /\ (w' = cold
        \/ exists data,
             trace w' = trace cold ++ [EvWriteFile (updatePath cold EmptyString) data]).
Proof.
  apply (handler_update_without_name test_Decode test_Valid test_Error test_ResponseError
           Background new_response unnamed_request cold); reflexivity.
Defined.


Lemma client_init_keeps_the_read_lock_witness :
  exists c',
    init_times 3 (mkClient "http://localhost:8080" DefaultWebUrlGet DefaultWebUrlUpdate
                           (Some DefaultClient) unlockedMutex true) = Some c'
    /\ readers (client_lock c') = 3%nat
    /\ writer (client_lock c') = false
    /\ (Host c', UrlGet c', UrlUpdate c', HttpClient c', initialized c')
       = ("http://localhost:8080"%string, DefaultWebUrlGet, DefaultWebUrlUpdate,
          Some DefaultClient, true).
Proof.
  apply (client_init_keeps_the_read_lock
           (mkClient "http://localhost:8080" DefaultWebUrlGet DefaultWebUrlUpdate
                     (Some DefaultClient) unlockedMutex true) 3); reflexivity.
Defined.

Lemma client_init_overrides_settings_witness :
  exists c',
    init_times 2 custom_client = Some c'
    /\ UrlGet c' = DefaultWebUrlGet
    /\ UrlUpdate c' = DefaultWebUrlUpdate
    /\ HttpClient c' = Some DefaultClient
    /\ Host c' = "http://localhost:8080/"%string.
Proof.
  apply (client_init_overrides_settings custom_client 1 "http://localhost:8080/");
    reflexivity.
Defined.
